(** * TubeAI: staged streaming pipeline, caches, rate limiter, adapters

    A shallow embedding of the TypeScript sources:
    - [RateLimiter]  : app/utils/rateLimit.ts (class RateLimiter, RATE_LIMITS)
    - [SimpleCache]  : the in-memory cache with TTL (class SimpleCache)
    - [Adapters]     : app/utils/cache.ts on the key-value store,
                       reddit-oauth.ts (getRedditAccessToken),
                       app/lib/external-apis.ts in its version with the
                       authenticated search and the public fallback,
                       app/lib/youtube-service.ts, ai-service.ts
    - [Route]        : the streaming route (POST), whose [send] and [close]
                       guard the stream controller

    Conventions.  JavaScript numbers holding millisecond instants, counts,
    lifetimes and scores are integers of [Z].  [Date.now()] is an argument of
    the pure components and an oracle of the world elsewhere.  A thrown value
    is an [Error] with its [message].  Third-party services are oracles on an
    abstract world: every call settles, by returning or by throwing.  State
    shared between calls (the limiter's map, the cache's map, the log of calls
    that leave the process, the events handed to [send]) is threaded through
    a state-and-exception monad. *)

From Stdlib Require Import Strings.Ascii Sorting.Sorted.
From stdpp Require Import gmap strings list.

Local Open Scope Z_scope.

(** ** Outcomes of calls that may throw, and a state-and-exception monad *)

Inductive Outcome (A : Type) : Type :=
| Returned (a : A)
| Thrown (message : string).
Arguments Returned {A} a.
Arguments Thrown {A} message.

Definition M (S A : Type) : Type := S -> Outcome A * S.

Definition ret {S A} (a : A) : M S A := fun s => (Returned a, s).

Definition throw {S A} (message : string) : M S A := fun s => (Thrown message, s).

Definition bind {S A B} (m : M S A) (k : A -> M S B) : M S B :=
  fun s =>
    match m s with
    | (Returned a, s') => k a s'
    | (Thrown e, s') => (Thrown e, s')
    end.

(** [try { m } catch (error) { h error.message }] : effects performed by [m]
    before it threw are kept. *)
Definition try_catch {S A} (m : M S A) (h : string -> M S A) : M S A :=
  fun s =>
    match m s with
    | (Returned a, s') => (Returned a, s')
    | (Thrown e, s') => h e s'
    end.

(** [Promise.allSettled] on one promise: a rejection becomes a value. *)
Definition settled {S A} (m : M S A) : M S (Outcome A) :=
  fun s => let '(o, s') := m s in (Returned o, s').

Definition gets {S A} (f : S -> A) : M S A := fun s => (Returned (f s), s).
Definition modify {S} (f : S -> S) : M S unit := fun s => (Returned tt, f s).

Notation "x <- m ;; k" := (bind m (fun x => k))
  (at level 100, m at next level, right associativity).
Notation "m ;;; k" := (bind m (fun _ => k))
  (at level 100, right associativity).

(** JavaScript truthiness of an optional string: [undefined] and the empty
    string are falsy. *)
Definition truthy (v : option string) : bool :=
  match v with
  | Some s => negb (String.eqb s EmptyString)
  | None => false
  end.

(** ** Rate limiter (fixed window) *)

Module RateLimiter.

Record RateLimitEntry : Type := { count : Z; resetAt : Z }.

Record CheckResult : Type :=
  { allowed : bool; remaining : Z; result_resetAt : Z }.

(** [check] at instant [now = Date.now()]; the private [limits] map is
    threaded explicitly.  [entry.count++] mutates the entry held by the map,
    which is an update of the binding of [identifier]. *)
Definition check (now : Z) (identifier : string) (maxRequests windowSeconds : Z)
    (limits : gmap string RateLimitEntry)
  : CheckResult * gmap string RateLimitEntry :=
  let fresh :=
    let resetAt' := now + windowSeconds * 1000 in
    ({| allowed := true; remaining := maxRequests - 1; result_resetAt := resetAt' |},
     <[identifier := {| count := 1; resetAt := resetAt' |}]> limits) in
  match limits !! identifier with
  | None => fresh
  | Some entry =>
      if bool_decide (now > resetAt entry) then fresh
      else if bool_decide (count entry >= maxRequests) then
        ({| allowed := false; remaining := 0; result_resetAt := resetAt entry |},
         limits)
      else
        let entry' := {| count := count entry + 1; resetAt := resetAt entry |} in
        ({| allowed := true; remaining := maxRequests - count entry';
            result_resetAt := resetAt entry |},
         <[identifier := entry']> limits)
  end.

(** [cleanup]: drop every entry whose window has passed. *)
Definition cleanup (now : Z) (limits : gmap string RateLimitEntry)
  : gmap string RateLimitEntry :=
  filter (fun kv => ¬ (now > resetAt kv.2)) limits.

(** Rate limit configuration. *)
Definition PER_IP_maxRequests : Z := 10.
Definition PER_IP_windowSeconds : Z := 60.
Definition PER_CHANNEL_maxRequests : Z := 5.
Definition PER_CHANNEL_windowSeconds : Z := 300.

(** A sequence of [check] calls for one identifier at the given instants. *)
Fixpoint checks (times : list Z) (identifier : string)
    (maxRequests windowSeconds : Z) (limits : gmap string RateLimitEntry)
  : list CheckResult * gmap string RateLimitEntry :=
  match times with
  | [] => ([], limits)
  | now :: rest =>
      let '(r, limits') := check now identifier maxRequests windowSeconds limits in
      let '(rs, limits'') := checks rest identifier maxRequests windowSeconds limits' in
      (r :: rs, limits'')
  end.

(** The first call of a run opens the window: no entry is stored for the
    identifier, or the stored window has passed. *)
Definition opens_window (now : Z) (identifier : string)
    (limits : gmap string RateLimitEntry) : Prop :=
  match limits !! identifier with
  | None => True
  | Some entry => now > resetAt entry
  end.

(** Which of [n] further calls inside a window are let through when the
    stored count is [c]. *)
Fixpoint expected_allowed (c maxR : Z) (n : nat) : list bool :=
  match n with
  | O => []
  | S n' =>
      if bool_decide (c >= maxR) then false :: expected_allowed c maxR n'
      else true :: expected_allowed (c + 1) maxR n'
  end.

(** The boundary policy in the words of the specification: a call at [now = resetAt] of the stored
    window opens a fresh window with count 1. *)
Definition fresh_window_at_resetAt : Prop :=
  forall (limits : gmap string RateLimitEntry) id e maxR w,
    limits !! id = Some e ->
    check (resetAt e) id maxR w limits =
      ({| allowed := true; remaining := maxR - 1;
          result_resetAt := resetAt e + w * 1000 |},
       <[id := {| count := 1; resetAt := resetAt e + w * 1000 |}]> limits).

Definition exhausted_window : gmap string RateLimitEntry :=
  {[ "203.0.113.7" := {| count := 10; resetAt := 1700000060000 |} ]}.

End RateLimiter.

(** ** In-memory cache with TTL *)

Module SimpleCache.

Record CacheEntry (T : Type) : Type := { data : T; expiresAt : Z }.
Arguments data {T} _.
Arguments expiresAt {T} _.

Section Cache.
Context {T : Type}.

Definition set (now : Z) (key : string) (d : T) (ttlSeconds : Z)
    (cache : gmap string (CacheEntry T)) : gmap string (CacheEntry T) :=
  <[key := {| data := d; expiresAt := now + ttlSeconds * 1000 |}]> cache.

Definition get (now : Z) (key : string) (cache : gmap string (CacheEntry T))
  : option T * gmap string (CacheEntry T) :=
  match cache !! key with
  | None => (None, cache)
  | Some entry =>
      if bool_decide (now > expiresAt entry) then (None, base.delete key cache)
      else (Some (data entry), cache)
  end.

Definition delete (key : string) (cache : gmap string (CacheEntry T))
  : gmap string (CacheEntry T) :=
  base.delete key cache.

Definition clear (cache : gmap string (CacheEntry T)) : gmap string (CacheEntry T) := ∅.

Definition cleanup (now : Z) (cache : gmap string (CacheEntry T))
  : gmap string (CacheEntry T) :=
  filter (fun kv => ¬ (now > expiresAt kv.2)) cache.

(** [getCached], [setCached], [clearCache] on the global instance. *)
Definition getCached := get.
Definition setCached := set.
Definition clearCache (key : option string) (cache : gmap string (CacheEntry T))
  : gmap string (CacheEntry T) :=
  if truthy key then delete (default EmptyString key) cache else clear cache.
End Cache.

End SimpleCache.

(** ** Domain records (app/types.ts) *)

Record YouTubeVideo : Type :=
  { video_id : string; video_title : string; video_description : string;
    video_publishedAt : string; video_thumbnail : string; video_url : string }.

Record TopicAnalysis : Type := { topics : list string; summary : string }.

Record NewsArticle : Type :=
  { news_title : string; news_url : string; news_source : string;
    news_publishedAt : string }.

(** [created] is [data.created_utc || data.created || Date.now() / 1000]; the
    last alternative is a fraction of the clock and is kept symbolic. *)
Inductive Created : Type :=
| CreatedAt (seconds : Z)
| CreatedNow.

Record RedditPost : Type :=
  { post_title : string; post_url : string; post_subreddit : string;
    post_score : Z; post_created : Created }.

Record VideoIdea : Type :=
  { idea_title : string; thumbDesign : string; videoIdea : string }.

(** ** The external world of the adapters *)

Record ProcessEnv : Type :=
  { YOUTUBE_API_KEY : option string;
    OPENAI_API_KEY : option string;
    NEWS_API_KEY : option string;
    REDDIT_CLIENT_ID : option string;
    REDDIT_CLIENT_SECRET : option string;
    REDDIT_USER_AGENT : option string }.

(** The record kept under ['reddit:access_token']. *)
Record TokenRecord : Type := { token : string; token_expiresAt : Z }.

(** [response.data] of the credential exchange. *)
Record RedditTokenResponse : Type := { access_token : string; expires_in : Z }.

(** One element of [response.data.data.children], read through [child.data];
    an absent field is [None]. *)
Record RawChild : Type :=
  { child_title : option string;
    child_permalink : option string;
    child_subreddit : option string;
    child_id : option string;
    child_score : option Z;
    child_created_utc : option Z;
    child_created : option Z }.

(** One element of [response.data.articles]. *)
Record RawArticle : Type :=
  { article_title : string; article_url : string;
    article_source_name : option string; article_publishedAt : string }.

(** What [channels.list] yields for [items?.[0]]. *)
Record ChannelsResponse : Type :=
  { channel_snippet_title : option string;
    channel_uploads : option string }.

(** One element of [videosResponse.data.items]. *)
Record RawVideo : Type :=
  { raw_id : option string; raw_title : option string;
    raw_description : option string; raw_publishedAt : option string;
    raw_thumbnail_high_url : option string }.

Record VideosResult : Type :=
  { result_videos : list YouTubeVideo; result_channelName : string }.

(** The pieces interpolated into the two completion prompts. *)
Inductive Prompt : Type :=
| TopicsPrompt (videoTitles videoDescriptions : string)
| IdeasPrompt (videoTitles topicList newsTitles redditTitles : string).

(** Parsed completion text: the fields read from [JSON.parse(content)], at
    the types [analyzeTopics] declares for its result.  [json_topics] is
    [None] for a missing or falsy [topics] field and [Some l] for an array of
    strings.  A completion whose [topics] is some other truthy value (a
    string, a number, an object) has no counterpart here: the source passes
    such a value on unchanged, and [.slice(0, 3).join(...)] in the news and
    forum adapters and [.join(', ')] in idea generation then throw on it.
    What is proved of the adapters is proved for topic lists that are
    arrays. *)
Record TopicsJson : Type :=
  { json_topics : option (list string); json_summary : option string }.

(** Calls that leave the process, in the order they are issued. *)
Inductive Call : Type :=
| KvGet (key : string)
| KvSetToken (key : string) (record : TokenRecord) (ttlSeconds : Z)
| KvSetVideos (key : string) (ttlSeconds : Z)
| TokenExchange
| OAuthSearch (topic accessToken : string)
| PublicSearch (topic : string)
| NewsSearch (query : string)
| ChannelsList (channelId : string)
| PlaylistItemsList (playlistId : string)
| VideosList (ids : list string)
| ChatCompletion (prompt : Prompt).

(** Third-party collaborators: each call is an oracle on the state of the
    world; it returns or throws (network failure, timeout, status >= 500,
    malformed body). *)
Class External (World : Type) : Type :=
  { date_now : World -> Z * World;
    date_today : World -> string * World;
    kv_get_token : string -> World -> Outcome (option TokenRecord) * World;
    kv_set_token : string -> TokenRecord -> Z -> World -> Outcome unit * World;
    kv_get_videos : string -> World -> Outcome (option VideosResult) * World;
    kv_set_videos : string -> VideosResult -> Z -> World -> Outcome unit * World;
    axios_post_access_token :
      string -> string -> string -> World -> Outcome RedditTokenResponse * World;
    axios_get_oauth_search :
      string -> string -> string -> World -> Outcome (option (list RawChild)) * World;
    axios_get_public_search :
      string -> World -> Outcome (option (list RawChild)) * World;
    axios_get_news :
      string -> string -> string -> World -> Outcome (option (list RawArticle)) * World;
    youtube_channels_list : string -> World -> Outcome ChannelsResponse * World;
    youtube_playlistItems_list :
      string -> World -> Outcome (option (list (option string))) * World;
    youtube_videos_list :
      list string -> World -> Outcome (option (list RawVideo)) * World;
    openai_chat_completion : Prompt -> World -> Outcome (option string) * World;
    JSON_parse_topics : string -> Outcome TopicsJson;
    JSON_parse_ideas : string -> Outcome (option (list VideoIdea));
    array_sort : list string -> list string }.

(** ** Pure helpers of the adapters *)

(** [a || b] on optional strings. *)
Definition or_else (a : option string) (b : string) : string :=
  if truthy a then default b a else b.

(** Template interpolation of a possibly absent value. *)
Definition interpolate (a : option string) : string := default "undefined" a.

(** The URL under which a post is de-duplicated. *)
Definition child_url (data : RawChild) : string :=
  if truthy (child_permalink data) then
    let permalink := default EmptyString (child_permalink data) in
    "https://reddit.com" +:+ (if String.prefix "/" permalink then EmptyString else "/") +:+ permalink
  else
    "https://reddit.com/r/" +:+ interpolate (child_subreddit data)
      +:+ "/comments/" +:+ interpolate (child_id data).

Definition nonzero (z : option Z) : option Z :=
  match z with
  | Some v => if bool_decide (v = 0) then None else Some v
  | None => None
  end.

(** The [map] callback of both search paths; [None] is the [null] that the
    following [filter] drops. *)
Definition child_to_post (data : RawChild) : option RedditPost :=
  if negb (truthy (child_title data)) then None
  else Some
    {| post_title := default EmptyString (child_title data);
       post_url := child_url data;
       post_subreddit := or_else (child_subreddit data) "unknown";
       post_score := default 0 (child_score data);
       post_created :=
         match nonzero (child_created_utc data), nonzero (child_created data) with
         | Some t, _ => CreatedAt t
         | None, Some t => CreatedAt t
         | None, None => CreatedNow
         end |}.

Definition children_to_posts (children : list RawChild) : list RedditPost :=
  omap child_to_post children.

(** The posts a search response amounts to: none when the call threw or the
    body carries no [children]. *)
Definition posts_of (response : Outcome (option (list RawChild))) : list RedditPost :=
  match response with
  | Returned (Some children) => children_to_posts children
  | Returned None => []
  | Thrown _ => []
  end.

(** [self.findIndex(pred)]; [-1] when no element satisfies [pred]. *)
Fixpoint findIndex {A} (pred : A -> bool) (self : list A) : Z :=
  match self with
  | [] => -1
  | x :: rest =>
      if pred x then 0
      else let i := findIndex pred rest in if bool_decide (i = -1) then -1 else i + 1
  end.

(** [self.filter((x, index, self) => keep x index self)]. *)
Fixpoint filter_indexed {A} (keep : A -> Z -> bool) (index : Z) (l : list A) : list A :=
  match l with
  | [] => []
  | x :: rest =>
      if keep x index then x :: filter_indexed keep (index + 1) rest
      else filter_indexed keep (index + 1) rest
  end.

Definition uniquePosts (allPosts : list RedditPost) : list RedditPost :=
  filter_indexed
    (fun post index =>
       bool_decide (index =
         findIndex (fun p => String.eqb (post_url p) (post_url post)) allPosts))
    0 allPosts.

(** [Array.prototype.sort(compare)] is stable: [x] stays in front of the
    elements it does not compare greater than. *)
Fixpoint sort_insert {A} (compare : A -> A -> Z) (x : A) (sorted : list A) : list A :=
  match sorted with
  | [] => [x]
  | y :: rest =>
      if bool_decide (compare x y > 0) then y :: sort_insert compare x rest
      else x :: y :: rest
  end.

Fixpoint sort {A} (compare : A -> A -> Z) (l : list A) : list A :=
  match l with
  | [] => []
  | x :: rest => sort_insert compare x (sort compare rest)
  end.

Definition by_score_desc (a b : RedditPost) : Z := post_score b - post_score a.

(** [uniquePosts.sort((a, b) => b.score - a.score).slice(0, 15)] *)
Definition sortedPosts (allPosts : list RedditPost) : list RedditPost :=
  take 15 (sort by_score_desc (uniquePosts allPosts)).

(** The first post of [pool] carrying the URL [url]. *)
Definition first_with_url (url : string) (pool : list RedditPost) : option RedditPost :=
  List.find (fun p => String.eqb (post_url p) url) pool.

Definition score_ge (a b : RedditPost) : Prop := post_score a >= post_score b.

(** Positions [i < j] of [l] hold posts of non-increasing score. *)
Definition score_descending (l : list RedditPost) : Prop :=
  forall (i j : nat) (a b : RedditPost),
    (i < j)%nat -> l !! i = Some a -> l !! j = Some b -> post_score a >= post_score b.

(** ** Provider adapters *)

(** Process-wide state seen by the adapters: the world outside, the calls
    issued so far (oldest first), and the in-memory cache singleton. *)
Record AdapterState (World : Type) : Type :=
  { world : World;
    calls : list Call;
    memory : gmap string (SimpleCache.CacheEntry TopicAnalysis) }.
Arguments world {World} _.
Arguments calls {World} _.
Arguments memory {World} _.

Module Adapters.
Section WithWorld.
Context {World : Type} `{External World}.

Definition issue {A} (c : Call) (oracle : World -> Outcome A * World)
  : M (AdapterState World) A :=
  fun s =>
    let '(o, w) := oracle (world s) in
    (o, {| world := w; calls := calls s ++ [c]; memory := memory s |}).

Definition Date_now : M (AdapterState World) Z :=
  fun s =>
    let '(now, w) := date_now (world s) in
    (Returned now, {| world := w; calls := calls s; memory := memory s |}).

Definition Date_today : M (AdapterState World) string :=
  fun s =>
    let '(today, w) := date_today (world s) in
    (Returned today, {| world := w; calls := calls s; memory := memory s |}).

(** *** app/utils/cache.ts on the external key-value store *)

Definition getCached_token (key : string) : M (AdapterState World) (option TokenRecord) :=
  try_catch (issue (KvGet key) (kv_get_token key)) (fun _ => ret None).

Definition setCached_token (key : string) (d : TokenRecord) (ttlSeconds : Z)
  : M (AdapterState World) unit :=
  try_catch (issue (KvSetToken key d ttlSeconds) (kv_set_token key d ttlSeconds))
    (fun _ => ret tt).

Definition getCached_videos (key : string) : M (AdapterState World) (option VideosResult) :=
  try_catch (issue (KvGet key) (kv_get_videos key)) (fun _ => ret None).

Definition setCached_videos (key : string) (d : VideosResult) (ttlSeconds : Z)
  : M (AdapterState World) unit :=
  try_catch (issue (KvSetVideos key ttlSeconds) (kv_set_videos key d ttlSeconds))
    (fun _ => ret tt).

Definition CACHE_TTL_CHANNEL_VIDEOS : Z := 60 * 60.
Definition CACHE_TTL_TOPIC_ANALYSIS : Z := 24 * 60 * 60.

(** *** reddit-oauth.ts *)

Definition default_user_agent : string := "TubeAI/1.0 by /u/yourusername".

Definition getRedditAccessToken (env : ProcessEnv)
  : M (AdapterState World) (option string) :=
  if negb (truthy (REDDIT_CLIENT_ID env)) || negb (truthy (REDDIT_CLIENT_SECRET env))
  then ret None
  else
    let cacheKey := "reddit:access_token" in
    cached <- getCached_token cacheKey ;;
    usable <- match cached with
              | Some c => now <- Date_now ;;
                          ret (bool_decide (token_expiresAt c > now + 60000))
              | None => ret false
              end ;;
    if usable then ret (token <$> cached)
    else
      try_catch
        (response <- issue TokenExchange
                       (axios_post_access_token
                          (default EmptyString (REDDIT_CLIENT_ID env))
                          (default EmptyString (REDDIT_CLIENT_SECRET env))
                          (or_else (REDDIT_USER_AGENT env) default_user_agent)) ;;
         now <- Date_now ;;
         let expiresAt := now + expires_in response * 1000 in
         setCached_token cacheKey
           {| token := access_token response; token_expiresAt := expiresAt |}
           (expires_in response - 60) ;;;
         ret (Some (access_token response)))
        (fun _ => ret None).

(** *** external-apis.ts *)

Definition fetchRelevantNews (env : ProcessEnv) (topics : list string)
  : M (AdapterState World) (list NewsArticle) :=
  if bool_decide (length topics = 0%nat) then ret []
  else
    let query := String.concat " OR " (take 3 topics) in
    today <- Date_today ;;
    try_catch
      (if truthy (NEWS_API_KEY env) then
         articles <- issue (NewsSearch query)
                       (axios_get_news query today (default EmptyString (NEWS_API_KEY env))) ;;
         ret (map (fun article =>
                     {| news_title := article_title article;
                        news_url := article_url article;
                        news_source := or_else (article_source_name article) "Unknown";
                        news_publishedAt := article_publishedAt article |})
                  (default [] articles))
       else ret [])
      (fun _ => ret []).

Definition searchRedditWithOAuth (env : ProcessEnv) (topic : string)
  : M (AdapterState World) (list RedditPost) :=
  accessToken <- getRedditAccessToken env ;;
  if negb (truthy accessToken) then ret []
  else
    let REDDIT_USER_AGENT' := or_else (REDDIT_USER_AGENT env) default_user_agent in
    try_catch
      (children <- issue (OAuthSearch topic (default EmptyString accessToken))
                     (axios_get_oauth_search topic (default EmptyString accessToken)
                        REDDIT_USER_AGENT') ;;
       match children with
       | None => ret []
       | Some children => ret (children_to_posts children)
       end)
      (fun _ => ret []).

Definition searchRedditPublic (topic : string)
  : M (AdapterState World) (list RedditPost) :=
  try_catch
    (children <- issue (PublicSearch topic) (axios_get_public_search topic) ;;
     let children := default [] children in
     if bool_decide (length children = 0%nat) then ret []
     else ret (children_to_posts children))
    (fun _ => ret []).

(** The body of the [for (const topic of ...)] loop. *)
Definition search_topic (env : ProcessEnv) (hasOAuth : bool)
    (allPosts : list RedditPost) (topic : string)
  : M (AdapterState World) (list RedditPost) :=
  posts <- (if hasOAuth then
              posts <- searchRedditWithOAuth env topic ;;
              if bool_decide (length posts = 0%nat) then searchRedditPublic topic
              else ret posts
            else searchRedditPublic topic) ;;
  if bool_decide (0 < length posts)%nat then ret (allPosts ++ posts)
  else ret allPosts.

Fixpoint search_topics (env : ProcessEnv) (hasOAuth : bool)
    (allPosts : list RedditPost) (topics : list string)
  : M (AdapterState World) (list RedditPost) :=
  match topics with
  | [] => ret allPosts
  | topic :: rest =>
      allPosts' <- search_topic env hasOAuth allPosts topic ;;
      search_topics env hasOAuth allPosts' rest
  end.

Definition hasOAuth (env : ProcessEnv) : bool :=
  truthy (REDDIT_CLIENT_ID env) && truthy (REDDIT_CLIENT_SECRET env).

Definition searchRedditPosts (env : ProcessEnv) (topics : list string)
  : M (AdapterState World) (list RedditPost) :=
  if bool_decide (length topics = 0%nat) then ret []
  else
    allPosts <- search_topics env (hasOAuth env) [] (take 3 topics) ;;
    ret (sortedPosts allPosts).

(** The list pooled by the loop of [searchRedditPosts], before
    de-duplication. *)
Definition pooledPosts (env : ProcessEnv) (topics : list string)
    (s : AdapterState World) : list RedditPost :=
  match search_topics env (hasOAuth env) [] (take 3 topics) s with
  | (Returned allPosts, _) => allPosts
  | (Thrown _, _) => []
  end.

(** *** youtube-service.ts *)

Definition raw_to_video (video : RawVideo) : YouTubeVideo :=
  {| video_id := or_else (raw_id video) EmptyString;
     video_title := or_else (raw_title video) EmptyString;
     video_description := or_else (raw_description video) EmptyString;
     video_publishedAt := or_else (raw_publishedAt video) EmptyString;
     video_thumbnail := or_else (raw_thumbnail_high_url video) EmptyString;
     video_url := "https://www.youtube.com/watch?v=" +:+ interpolate (raw_id video) |}.


(** [setCached(...).catch(console.error)] is issued without being awaited;
    its outcome never reaches the caller. *)
Definition fetchChannelVideos (channelId : string)
  : M (AdapterState World) VideosResult :=
  let cacheKey := "channel:videos:" +:+ channelId in
  cached <- getCached_videos cacheKey ;;
  match cached with
  | Some hit => ret hit
  | None =>
      channelResponse <- issue (ChannelsList channelId) (youtube_channels_list channelId) ;;
      let channelName := or_else (channel_snippet_title channelResponse) "Unknown Channel" in
      if negb (truthy (channel_uploads channelResponse)) then
        throw "Could not find uploads playlist"
      else
        let uploadsPlaylistId := default EmptyString (channel_uploads channelResponse) in
        items <- issue (PlaylistItemsList uploadsPlaylistId)
                   (youtube_playlistItems_list uploadsPlaylistId) ;;
        let videoIds : list string :=
          match items with
          | Some l => omap (fun id : option string => if truthy id then id else None) l
          | None => []
          end in
        if bool_decide (length videoIds = 0%nat) then throw "No videos found"
        else
          videosResponse <- issue (VideosList videoIds) (youtube_videos_list videoIds) ;;
          let videos := map raw_to_video (default [] videosResponse) in
          let result := {| result_videos := videos; result_channelName := channelName |} in
          setCached_videos cacheKey result CACHE_TTL_CHANNEL_VIDEOS ;;;
          ret result
  end.

(** *** ai-service.ts, on the in-memory cache *)

(** [cache.get] reads the clock only when an entry is stored under [key]. *)
Definition memory_get (key : string) : M (AdapterState World) (option TopicAnalysis) :=
  fun s =>
    match memory s !! key with
    | None => (Returned None, s)
    | Some _ =>
        (now <- Date_now ;;
         fun s' =>
           let '(v, m) := SimpleCache.getCached now key (memory s') in
           (Returned v, {| world := world s'; calls := calls s'; memory := m |})) s
    end.

Definition memory_set (key : string) (d : TopicAnalysis) (ttlSeconds : Z)
  : M (AdapterState World) unit :=
  now <- Date_now ;;
  modify (fun s =>
    {| world := world s; calls := calls s;
       memory := SimpleCache.setCached now key d ttlSeconds (memory s) |}).

(** [JSON.parse(content || '{}')] followed by the field reads. *)
Definition parse_topics (content : option string) : Outcome TopicsJson :=
  if truthy content then JSON_parse_topics (default EmptyString content)
  else Returned {| json_topics := None; json_summary := None |}.

Definition parse_ideas (content : option string) : Outcome (option (list VideoIdea)) :=
  if truthy content then JSON_parse_ideas (default EmptyString content)
  else Returned None.

Definition lift_outcome {S A} (o : Outcome A) : M S A := fun s => (o, s).

Definition newline : string := String (Ascii.ascii_of_nat 10) EmptyString.


(** [v.description.substring(0, 500)] counts UTF-16 code units where
    [String.substring] counts bytes: the two agree on ASCII descriptions.  The
    prompt text is an argument of the completion oracle only. *)
Definition analyzeTopics (videos : list YouTubeVideo)
  : M (AdapterState World) TopicAnalysis :=
  let videoIds := String.concat "," (array_sort (map video_id videos)) in
  let cacheKey := "topics:" +:+ videoIds in
  cached <- memory_get cacheKey ;;
  match cached with
  | Some hit => ret hit
  | None =>
      let videoTitles := String.concat newline (map video_title videos) in
      let videoDescriptions :=
        String.concat newline
          (map (fun v => String.substring 0 500 (video_description v)) videos) in
      content <- issue (ChatCompletion (TopicsPrompt videoTitles videoDescriptions))
                   (openai_chat_completion (TopicsPrompt videoTitles videoDescriptions)) ;;
      response <- lift_outcome (parse_topics content) ;;
      let result := {| topics := default [] (json_topics response);
                       summary := or_else (json_summary response) EmptyString |} in
      memory_set cacheKey result CACHE_TTL_TOPIC_ANALYSIS ;;;
      ret result
  end.

Definition generateVideoIdeas (videos : list YouTubeVideo) (topics : list string)
    (news : list NewsArticle) (redditPosts : list RedditPost)
  : M (AdapterState World) (list VideoIdea) :=
  let videoTitles := String.concat newline (map video_title videos) in
  let newsTitles := String.concat newline (map news_title news) in
  let redditTitles := String.concat newline (map post_title redditPosts) in
  let prompt :=
    IdeasPrompt videoTitles (String.concat ", " topics)
      (or_else (Some newsTitles) "No recent news found")
      (or_else (Some redditTitles) "No Reddit discussions found") in
  content <- issue (ChatCompletion prompt) (openai_chat_completion prompt) ;;
  response <- lift_outcome (parse_ideas content) ;;
  ret (default [] response).

(** [s'] differs from [s] by further calls only (and the world). *)
Definition extends (s s' : AdapterState World) : Prop :=
  memory s' = memory s /\ exists new, calls s' = calls s ++ new.

(** No search, authenticated or public, yields a post in any state of the
    world. *)
Definition no_results_anywhere : Prop :=
  (forall topic w, posts_of (axios_get_public_search topic w).1 = [])
  /\ (forall topic accessToken userAgent w,
        posts_of (axios_get_oauth_search topic accessToken userAgent w).1 = []).

End WithWorld.
End Adapters.

(** ** Pipeline orchestrator (the streaming route) *)

Module Route.
Import RateLimiter.

(** The objects handed to [send], by their [type] field. *)
Inductive Event : Type :=
| EvStatus (message : string)
| EvVideos (videos : list YouTubeVideo) (channelName : string)
| EvTopics (data : TopicAnalysis)
| EvNews (data : list NewsArticle)
| EvReddit (data : list RedditPost)
| EvIdeas (data : list VideoIdea)
| EvComplete
| EvError (message : string) (resetAt : option Z).

(** What the route reads of the request: two headers and the [url] field of
    the parsed body ([Thrown] when the body does not parse). *)
Record Request : Type :=
  { x_forwarded_for : option string;
    x_real_ip : option string;
    json_url : Outcome (option string) }.

(** The imported functions, as the route sees them: promises that fulfil or
    reject, acting on a state [W] the route itself never touches. *)
Class Services (W : Type) : Type :=
  { Date_now : W -> Z * W;
    toLocaleTimeString : Z -> string;
    getChannelIdFromUrl : option string -> W -> Outcome (option string) * W;
    fetchChannelVideos : string -> W -> Outcome VideosResult * W;
    analyzeTopics : list YouTubeVideo -> W -> Outcome TopicAnalysis * W;
    fetchRelevantNews : list string -> W -> Outcome (list NewsArticle) * W;
    searchRedditPosts : list string -> W -> Outcome (list RedditPost) * W;
    generateVideoIdeas :
      list YouTubeVideo -> list string -> list NewsArticle -> list RedditPost ->
      W -> Outcome (list VideoIdea) * W }.

(** History of a run: each imported function called, with its arguments and
    how its promise settled. *)
Inductive Step : Type :=
| CalledGetChannelIdFromUrl (url : option string) (result : Outcome (option string))
| CalledFetchChannelVideos (channelId : string) (result : Outcome VideosResult)
| CalledAnalyzeTopics (videos : list YouTubeVideo) (result : Outcome TopicAnalysis)
| CalledFetchRelevantNews (topics : list string) (result : Outcome (list NewsArticle))
| CalledSearchRedditPosts (topics : list string) (result : Outcome (list RedditPost))
| CalledGenerateVideoIdeas (videos : list YouTubeVideo) (topics : list string)
    (news : list NewsArticle) (redditPosts : list RedditPost)
    (result : Outcome (list VideoIdea)).

Record RunState (W : Type) : Type :=
  { services : W;
    limits : gmap string RateLimitEntry;
    emitted : list Event;
    closes : nat;
    history : list Step }.
Arguments services {W} _.
Arguments limits {W} _.
Arguments emitted {W} _.
Arguments closes {W} _.
Arguments history {W} _.

(** [s.split(',')[0]] *)
Fixpoint before_comma (s : string) : string :=
  match s with
  | EmptyString => EmptyString
  | String c rest => if Ascii.eqb c ","%char then EmptyString else String c (before_comma rest)
  end.

Definition getClientIdentifier (request : Request) : string :=
  or_else (before_comma <$> x_forwarded_for request)
    (or_else (x_real_ip request) "unknown").

Section WithServices.
Context {W : Type} `{Services W}.

(** [send] never throws: [controller] is set by [start] before the body runs,
    and a failing [enqueue] (the stream was closed or cancelled) is caught
    inside it.  The model records the data handed to [send], oldest first. *)
Definition send (data : Event) : M (RunState W) unit :=
  modify (fun s =>
    {| services := services s; limits := limits s;
       emitted := emitted s ++ [data]; closes := closes s;
       history := history s |}).

Definition close : M (RunState W) unit :=
  modify (fun s =>
    {| services := services s; limits := limits s;
       emitted := emitted s; closes := S (closes s);
       history := history s |}).

(** Await an imported function and record how it settled. *)
Definition await {A} (record : Outcome A -> Step) (promise : W -> Outcome A * W)
  : M (RunState W) A :=
  fun s =>
    let '(o, w) := promise (services s) in
    (o, {| services := w; limits := limits s; emitted := emitted s;
           closes := closes s; history := history s ++ [record o] |}).

Definition checkRateLimit (identifier : string) (maxRequests windowSeconds : Z)
  : M (RunState W) CheckResult :=
  fun s =>
    let '(now, w) := Date_now (services s) in
    let '(r, limits') := check now identifier maxRequests windowSeconds (limits s) in
    (Returned r,
     {| services := w; limits := limits'; emitted := emitted s;
        closes := closes s; history := history s |}).

Definition request_json (request : Request) : M (RunState W) (option string) :=
  fun s => (json_url request, s).

(** [value] of a settled promise, [[]] when it rejected. *)
Definition fulfilled_or_empty {A} (result : Outcome (list A)) : list A :=
  match result with
  | Returned value => value
  | Thrown _ => []
  end.

Definition when (b : bool) (m : M (RunState W) unit) : M (RunState W) unit :=
  if b then m else ret tt.

(** The asynchronous body of [POST].  Each early [return] is the end of its
    branch.  The two promises given to [Promise.allSettled] are created in
    source order; the route observes only how each settles. *)
Definition POST (env : ProcessEnv) (request : Request) : M (RunState W) unit :=
  try_catch
    (let clientId := getClientIdentifier request in
     rateLimit <- checkRateLimit clientId PER_IP_maxRequests PER_IP_windowSeconds ;;
     if negb (allowed rateLimit) then
       send (EvError ("Rate limit exceeded. Please try again after "
                        +:+ toLocaleTimeString (result_resetAt rateLimit))
                     (Some (result_resetAt rateLimit))) ;;;
       close
     else
       url <- request_json request ;;
       if negb (truthy url) then
         send (EvError "URL is required" None) ;;; close
       else if negb (truthy (YOUTUBE_API_KEY env)) || negb (truthy (OPENAI_API_KEY env)) then
         send (EvError "API keys not configured" None) ;;; close
       else
         send (EvStatus "Fetching channel videos...") ;;;
         channelId <- await (CalledGetChannelIdFromUrl url) (getChannelIdFromUrl url) ;;
         if negb (truthy channelId) then
           send (EvError "Could not extract channel ID from URL" None) ;;; close
         else
           let channelId := default EmptyString channelId in
           channelRateLimit <- checkRateLimit ("channel:" +:+ channelId)
                                 PER_CHANNEL_maxRequests PER_CHANNEL_windowSeconds ;;
           if negb (allowed channelRateLimit) then
             send (EvError "Too many requests for this channel. Please try again later."
                           None) ;;;
             close
           else
             fetched <- await (CalledFetchChannelVideos channelId)
                          (fetchChannelVideos channelId) ;;
             let videos := result_videos fetched in
             send (EvVideos videos (result_channelName fetched)) ;;;
             send (EvStatus "Analyzing topics...") ;;;
             analysis <- await (CalledAnalyzeTopics videos) (analyzeTopics videos) ;;
             send (EvTopics analysis) ;;;
             send (EvStatus "Fetching news and Reddit discussions...") ;;;
             newsResult <- settled (await (CalledFetchRelevantNews (topics analysis))
                                      (fetchRelevantNews (topics analysis))) ;;
             redditResult <- settled (await (CalledSearchRedditPosts (topics analysis))
                                        (searchRedditPosts (topics analysis))) ;;
             let news := fulfilled_or_empty newsResult in
             let redditPosts := fulfilled_or_empty redditResult in
             when (bool_decide (0 < length news)%nat) (send (EvNews news)) ;;;
             when (bool_decide (0 < length redditPosts)%nat) (send (EvReddit redditPosts)) ;;;
             send (EvStatus "Generating video ideas...") ;;;
             videoIdeas <- await (CalledGenerateVideoIdeas videos (topics analysis)
                                    news redditPosts)
                             (generateVideoIdeas videos (topics analysis)
                                news redditPosts) ;;
             send (EvIdeas videoIdeas) ;;;
             send EvComplete ;;;
             close)
    (fun message =>
       send (EvError (or_else (Some message) "An error occurred") None) ;;;
       close).

(** A run starts on a stream of its own; the rate limiter and the services
    are shared with earlier runs. *)
Definition start (w : W) (limits0 : gmap string RateLimitEntry) : RunState W :=
  {| services := w; limits := limits0; emitted := []; closes := 0; history := [] |}.

Definition run (env : ProcessEnv) (request : Request) (w : W)
    (limits0 : gmap string RateLimitEntry) : RunState W :=
  (POST env request (start w limits0)).2.
End WithServices.

Definition is_complete (e : Event) : bool :=
  match e with EvComplete => true | _ => false end.

Definition is_error (e : Event) : bool :=
  match e with EvError _ _ => true | _ => false end.

Definition is_terminal (e : Event) : bool := is_complete e || is_error e.

Definition is_news (e : Event) : bool :=
  match e with EvNews _ => true | _ => false end.

Definition count_events (p : Event -> bool) (l : list Event) : nat :=
  length (List.filter p l).

End Route.

(** ** Reference functions and scripted worlds used in the statements *)

(** De-duplication in the words of the specification: walk the pool in order
    and keep a post unless its URL was already seen. *)
Fixpoint keep_first (seen : list string) (pool : list RedditPost) : list RedditPost :=
  match pool with
  | [] => []
  | p :: rest =>
      if bool_decide (post_url p ∈ seen) then keep_first seen rest
      else p :: keep_first (post_url p :: seen) rest
  end.

Module Scenarios.

(** A world whose answers are fixed in advance. *)
Record Script : Type :=
  { clock : Z;
    today : string;
    stored_token : Outcome (option TokenRecord);
    stored_videos : Outcome (option VideosResult);
    store_write : Outcome unit;
    token_exchange : Outcome RedditTokenResponse;
    oauth_search : string -> Outcome (option (list RawChild));
    public_search : string -> Outcome (option (list RawChild));
    news_search : Outcome (option (list RawArticle));
    channels : Outcome ChannelsResponse;
    playlist_items : Outcome (option (list (option string)));
    videos_details : Outcome (option (list RawVideo));
    chat : Outcome (option string) }.

(** [Array.prototype.sort()] without a comparator orders strings by their
    code units. *)
Definition by_code_units (a b : string) : Z :=
  match String.compare a b with
  | Lt => -1
  | Eq => 0
  | Gt => 1
  end.

(** [JSON.parse] as far as the scripted completions need it: the empty
    object parses to an object without fields; any other text stands for a
    completion that is not JSON. *)
Definition parse_object {A} (empty : A) (text : string) : Outcome A :=
  if String.eqb text "{}" then Returned empty else Thrown "Unexpected token".

#[export] Instance scripted : External Script :=
  {| date_now w := (clock w, w);
     date_today w := (today w, w);
     kv_get_token _ w := (stored_token w, w);
     kv_set_token _ _ _ w := (store_write w, w);
     kv_get_videos _ w := (stored_videos w, w);
     kv_set_videos _ _ _ w := (store_write w, w);
     axios_post_access_token _ _ _ w := (token_exchange w, w);
     axios_get_oauth_search topic _ _ w := (oauth_search w topic, w);
     axios_get_public_search topic w := (public_search w topic, w);
     axios_get_news _ _ _ w := (news_search w, w);
     youtube_channels_list _ w := (channels w, w);
     youtube_playlistItems_list _ w := (playlist_items w, w);
     youtube_videos_list _ w := (videos_details w, w);
     openai_chat_completion _ w := (chat w, w);
     JSON_parse_topics := parse_object {| json_topics := None; json_summary := None |};
     JSON_parse_ideas := parse_object None;
     array_sort := sort by_code_units |}.


(** The store holds a token that expires in one hour; the channel exists but
    exposes no uploads playlist. *)
Definition cached_token : TokenRecord :=
  {| token := "eyJhbGciOi"; token_expiresAt := 1700003600000 |}.

Definition warm : Script :=
  {| clock := 1700000000000;
     today := "2023-11-14";
     stored_token := Returned (Some cached_token);
     stored_videos := Returned None;
     store_write := Returned tt;
     token_exchange := Returned {| access_token := "n3wT0k3n"; expires_in := 86400 |};
     oauth_search := fun _ => Returned (Some []);
     public_search := fun _ => Returned (Some []);
     news_search := Returned (Some []);
     channels := Returned {| channel_snippet_title := Some "Some Channel";
                             channel_uploads := None |};
     playlist_items := Returned None;
     videos_details := Returned None;
     chat := Returned None |}.

(** The stored token expires in thirty seconds. *)
Definition stale : Script :=
  {| clock := 1700000000000;
     today := "2023-11-14";
     stored_token := Returned (Some {| token := "0ldT0k3n"; token_expiresAt := 1700000030000 |});
     stored_videos := Returned None;
     store_write := Returned tt;
     token_exchange := Returned {| access_token := "n3wT0k3n"; expires_in := 86400 |};
     oauth_search := fun _ => Returned (Some []);
     public_search := fun _ => Returned (Some []);
     news_search := Returned (Some []);
     channels := Returned {| channel_snippet_title := None; channel_uploads := None |};
     playlist_items := Returned None;
     videos_details := Returned None;
     chat := Returned None |}.

Definition begin (w : Script) : AdapterState Script :=
  {| world := w; calls := []; memory := ∅ |}.

Definition with_credentials : ProcessEnv :=
  {| YOUTUBE_API_KEY := Some "AIza"; OPENAI_API_KEY := Some "sk-";
     NEWS_API_KEY := Some "k3y";
     REDDIT_CLIENT_ID := Some "client"; REDDIT_CLIENT_SECRET := Some "secret";
     REDDIT_USER_AGENT := None |}.

Definition without_reddit_credentials : ProcessEnv :=
  {| YOUTUBE_API_KEY := Some "AIza"; OPENAI_API_KEY := Some "sk-";
     NEWS_API_KEY := Some "k3y";
     REDDIT_CLIENT_ID := None; REDDIT_CLIENT_SECRET := None;
     REDDIT_USER_AGENT := None |}.

End Scenarios.

(** ** The route on stubbed services, and on the adapters themselves *)

Module RouteScenarios.
Import Route.

(** Services whose promises settle as fixed in advance. *)
Record Stubs : Type :=
  { stub_now : Z;
    stub_channelId : Outcome (option string);
    stub_videos : Outcome VideosResult;
    stub_analysis : Outcome TopicAnalysis;
    stub_news : Outcome (list NewsArticle);
    stub_reddit : Outcome (list RedditPost);
    stub_ideas : Outcome (list VideoIdea) }.

(** [new Date(ms).toLocaleTimeString()] on a host whose locale is en-US and
    whose time zone is UTC. *)
Definition digit (n : Z) : string :=
  String (Ascii.ascii_of_N (Z.to_N (48 + n))) EmptyString.

Definition two_digits (n : Z) : string := digit (n / 10) +:+ digit (n mod 10).

Definition en_US_time (ms : Z) : string :=
  let seconds := (ms / 1000) mod 86400 in
  let hours := seconds / 3600 in
  let hour12 := if bool_decide (hours mod 12 = 0) then 12 else hours mod 12 in
  (if bool_decide (hour12 < 10) then digit hour12 else two_digits hour12)
  +:+ ":" +:+ two_digits (seconds / 60 mod 60)
  +:+ ":" +:+ two_digits (seconds mod 60)
  +:+ (if bool_decide (hours < 12) then " AM" else " PM").

#[export] Instance stubbed : Services Stubs :=
  {| Date_now w := (stub_now w, w);
     toLocaleTimeString := en_US_time;
     getChannelIdFromUrl _ w := (stub_channelId w, w);
     fetchChannelVideos _ w := (stub_videos w, w);
     analyzeTopics _ w := (stub_analysis w, w);
     fetchRelevantNews _ w := (stub_news w, w);
     searchRedditPosts _ w := (stub_reddit w, w);
     generateVideoIdeas _ _ _ _ w := (stub_ideas w, w) |}.

(** The adapters of this repository as the services of the route; channel
    resolution (utils/youtube.ts) is left to an oracle [resolve]. *)
Definition adapters {World : Type} `{External World} (env : ProcessEnv)
    (resolve : option string -> World -> Outcome (option string) * World)
    (locale_time : Z -> string)
  : Services (AdapterState World) :=
  {| Date_now s :=
       let '(now, w) := date_now (world s) in
       (now, {| world := w; calls := calls s; memory := memory s |});
     toLocaleTimeString := locale_time;
     getChannelIdFromUrl url s :=
       let '(o, w) := resolve url (world s) in
       (o, {| world := w; calls := calls s; memory := memory s |});
     fetchChannelVideos := Adapters.fetchChannelVideos;
     analyzeTopics := Adapters.analyzeTopics;
     fetchRelevantNews := Adapters.fetchRelevantNews env;
     searchRedditPosts := Adapters.searchRedditPosts env;
     generateVideoIdeas := Adapters.generateVideoIdeas |}.

Definition video (id title : string) : YouTubeVideo :=
  {| video_id := id; video_title := title; video_description := "about " +:+ title;
     video_publishedAt := "2023-11-01T00:00:00Z"; video_thumbnail := "thumb";
     video_url := "https://www.youtube.com/watch?v=" +:+ id |}.

Definition post (title url : string) (score : Z) : RedditPost :=
  {| post_title := title; post_url := url; post_subreddit := "rust";
     post_score := score; post_created := CreatedAt 1699999000 |}.

Definition three_posts : list RedditPost :=
  [ post "Async traits" "https://reddit.com/r/rust/comments/a1" 412;
    post "Tokio 1.34" "https://reddit.com/r/rust/comments/b2" 230;
    post "Why wasm" "https://reddit.com/r/rust/comments/c3" 77 ].

Definition idea : VideoIdea :=
  {| idea_title := "Async Rust in 10 minutes"; thumbDesign := "orange crab";
     videoIdea := "walk through async traits" |}.

Definition two_videos : VideosResult :=
  {| result_videos := [video "v1" "Rust 101"; video "v2" "Wasm 101"];
     result_channelName := "Some Channel" |}.

Definition rust_topics : TopicAnalysis :=
  {| topics := ["rust"; "wasm"]; summary := "systems programming" |}.

(** News is down, the forum search finds three posts, ideas are generated. *)
Definition news_down : Stubs :=
  {| stub_now := 1700000000000;
     stub_channelId := Returned (Some "UC_x5XG1OV2P6uZZ5FSM9Ttw");
     stub_videos := Returned two_videos;
     stub_analysis := Returned rust_topics;
     stub_news := Thrown "socket hang up";
     stub_reddit := Returned three_posts;
     stub_ideas := Returned [idea] |}.

(** As [news_down], but the completion call for ideas fails as well. *)
Definition news_and_ideas_down : Stubs :=
  {| stub_now := 1700000000000;
     stub_channelId := Returned (Some "UC_x5XG1OV2P6uZZ5FSM9Ttw");
     stub_videos := Returned two_videos;
     stub_analysis := Returned rust_topics;
     stub_news := Thrown "socket hang up";
     stub_reddit := Returned three_posts;
     stub_ideas := Thrown "429 Too Many Requests" |}.

(** Every stage succeeds; the completion call yields no ideas and the
    catalog and topic stages yield empty lists. *)
Definition nothing_found : Stubs :=
  {| stub_now := 1700000000000;
     stub_channelId := Returned (Some "UC_x5XG1OV2P6uZZ5FSM9Ttw");
     stub_videos := Returned {| result_videos := []; result_channelName := "Unknown Channel" |};
     stub_analysis := Returned {| topics := []; summary := EmptyString |};
     stub_news := Returned [];
     stub_reddit := Returned [];
     stub_ideas := Returned [] |}.

Definition configured : ProcessEnv :=
  {| YOUTUBE_API_KEY := Some "AIza"; OPENAI_API_KEY := Some "sk-";
     NEWS_API_KEY := None; REDDIT_CLIENT_ID := None; REDDIT_CLIENT_SECRET := None;
     REDDIT_USER_AGENT := None |}.

Definition request : Request :=
  {| x_forwarded_for := Some "203.0.113.7, 10.0.0.1";
     x_real_ip := None;
     json_url := Returned (Some "https://www.youtube.com/@somechannel") |}.

End RouteScenarios.

(** ** Invariants of the two in-memory stores *)

(** Every stored window has counted at least the request that opened it. *)
Definition counts_positive (limits : gmap string RateLimiter.RateLimitEntry) : Prop :=
  forall id e, limits !! id = Some e -> 1 <= RateLimiter.count e.

(** A post as both search paths build it: a title, a subreddit and a URL on
    the forum's host. *)
Definition well_formed_post (p : RedditPost) : Prop :=
  post_title p <> EmptyString
  /\ post_subreddit p <> EmptyString
  /\ exists rest, post_url p = "https://reddit.com/" +:+ rest.

(** ** Channel resolution (app/utils/youtube.ts) *)

Module YoutubeUrl.

(** The character class [[a-zA-Z0-9_-]]. *)
Definition is_id_char (c : ascii) : bool :=
  let n := nat_of_ascii c in
  ((97 <=? n) && (n <=? 122))%nat || ((65 <=? n) && (n <=? 90))%nat
  || ((48 <=? n) && (n <=? 57))%nat || (n =? 95)%nat || (n =? 45)%nat.

(** The longest run of class characters at the head of [s]: what the greedy
    [([a-zA-Z0-9_-]+)] captures there. *)
Fixpoint id_run (s : string) : string :=
  match s with
  | EmptyString => EmptyString
  | String c rest => if is_id_char c then String c (id_run rest) else EmptyString
  end.

(** [s] without the literal [literal] at its head. *)
Fixpoint strip (literal s : string) : option string :=
  match literal, s with
  | EmptyString, _ => Some s
  | String a literal', String b s' =>
      if Ascii.eqb a b then strip literal' s' else None
  | String _ _, EmptyString => None
  end.

(** A match of [literal([a-zA-Z0-9_-]+)] anchored at the head of [s]: the
    capture. *)
Definition match_here (literal s : string) : option string :=
  match strip literal s with
  | Some rest => if String.eqb (id_run rest) EmptyString then None else Some (id_run rest)
  | None => None
  end.

(** The alternatives of a pattern tried in order at one position. *)
Fixpoint match_any (literals : list string) (s : string) : option string :=
  match literals with
  | [] => None
  | literal :: others =>
      match match_here literal s with
      | Some capture => Some capture
      | None => match_any others s
      end
  end.

(** [url.match(pattern)?.[1]]: the capture of the leftmost match. *)
Fixpoint search (literals : list string) (url : string) : option string :=
  match match_any literals url with
  | Some capture => Some capture
  | None =>
      match url with
      | EmptyString => None
      | String _ rest => search literals rest
      end
  end.

(** [URL_PATTERNS], each as the literals that may precede the capture. *)
Definition PATTERN_channelId : list string := ["youtube.com/channel/"].
Definition PATTERN_handle : list string := ["youtube.com/@"].
Definition PATTERN_customUrl : list string := ["youtube.com/c/"; "youtube.com/user/"].
Definition PATTERN_video : list string := ["youtube.com/watch?v="; "youtu.be/"].

(** The catalog requests of the resolver, each reduced to the field the code
    reads from the first item of the response. *)
Inductive Lookup : Type :=
| VerifyChannel (channelId : string)
| ChannelForHandle (handle : string)
| ChannelOfVideo (videoId : string)
| SearchChannel (username : string).

Class Catalog (World : Type) : Type :=
  { channels_list_id : string -> World -> Outcome (option string) * World;
    channels_list_forHandle : string -> World -> Outcome (option string) * World;
    videos_list_snippet_channelId : string -> World -> Outcome (option string) * World;
    search_list_snippet_channelId : string -> World -> Outcome (option string) * World }.

Record ResolverState (World : Type) : Type :=
  { catalog : World; lookups : list Lookup }.
Arguments catalog {World} _.
Arguments lookups {World} _.

Section WithCatalog.
Context {World : Type} `{Catalog World}.

Definition request {A} (l : Lookup) (oracle : World -> Outcome A * World)
  : M (ResolverState World) A :=
  fun s =>
    let '(o, w) := oracle (catalog s) in
    (o, {| catalog := w; lookups := lookups s ++ [l] |}).

(** One [if (match) { try { ... return id } catch { log } }] block followed
    by the rest of the function: [attempt] yields the identifier the block
    returns, if any. *)
Definition or_continue (attempt : M (ResolverState World) (option string))
    (rest : M (ResolverState World) (option string))
  : M (ResolverState World) (option string) :=
  found <- attempt ;;
  match found with
  | Some channelId => ret (Some channelId)
  | None => rest
  end.

Definition getChannelIdFromUrl (url : string) : M (ResolverState World) (option string) :=
  or_continue
    (match search PATTERN_channelId url with
     | Some channelId =>
         try_catch
           (id <- request (VerifyChannel channelId) (channels_list_id channelId) ;;
            if truthy id then ret (Some channelId) else ret None)
           (fun _ => ret None)
     | None => ret None
     end)
  (or_continue
    (match search PATTERN_handle url with
     | Some handle =>
         try_catch
           (channelId <- request (ChannelForHandle handle) (channels_list_forHandle handle) ;;
            if truthy channelId then ret channelId else ret None)
           (fun _ => ret None)
     | None => ret None
     end)
  (or_continue
    (match search PATTERN_video url with
     | Some videoId =>
         try_catch
           (channelId <- request (ChannelOfVideo videoId)
                           (videos_list_snippet_channelId videoId) ;;
            if truthy channelId then ret channelId else ret None)
           (fun _ => ret None)
     | None => ret None
     end)
  (or_continue
    (match search PATTERN_customUrl url with
     | Some username =>
         try_catch
           (channelId <- request (SearchChannel username)
                           (search_list_snippet_channelId username) ;;
            if truthy channelId then ret channelId else ret None)
           (fun _ => ret None)
     | None => ret None
     end)
  (ret None)))).

End WithCatalog.

(** Every character of [s] is in the class. *)
Fixpoint all_id_chars (s : string) : bool :=
  match s with
  | EmptyString => true
  | String c rest => is_id_char c && all_id_chars rest
  end.

(** A catalog whose answers are fixed in advance. *)
Record Answers : Type :=
  { answer_id : Outcome (option string);
    answer_handle : Outcome (option string);
    answer_video : Outcome (option string);
    answer_search : Outcome (option string) }.

#[export] Instance answered : Catalog Answers :=
  {| channels_list_id _ w := (answer_id w, w);
     channels_list_forHandle _ w := (answer_handle w, w);
     videos_list_snippet_channelId _ w := (answer_video w, w);
     search_list_snippet_channelId _ w := (answer_search w, w) |}.

Definition catalog_down : Answers :=
  {| answer_id := Thrown "quotaExceeded"; answer_handle := Thrown "quotaExceeded";
     answer_video := Thrown "quotaExceeded"; answer_search := Thrown "quotaExceeded" |}.

Definition catalog_up : Answers :=
  {| answer_id := Returned (Some "UC_x5XG1OV2P6uZZ5FSM9Ttw");
     answer_handle := Returned (Some "UC_x5XG1OV2P6uZZ5FSM9Ttw");
     answer_video := Returned (Some "UC_x5XG1OV2P6uZZ5FSM9Ttw");
     answer_search := Returned (Some "UC_x5XG1OV2P6uZZ5FSM9Ttw") |}.

Definition fresh (w : Answers) : ResolverState Answers :=
  {| catalog := w; lookups := [] |}.

End YoutubeUrl.

(** ** More scripted worlds *)

Module MoreScenarios.
Import Scenarios.

(** The catalog answers with one playable upload; the completion call
    carries no content. *)
Definition catalog_answers : Script :=
  {| clock := 1700000000000;
     today := "2023-11-14";
     stored_token := Returned None;
     stored_videos := Returned None;
     store_write := Returned tt;
     token_exchange := Thrown "401";
     oauth_search := fun _ => Returned None;
     public_search := fun _ => Returned None;
     news_search := Returned None;
     channels := Returned {| channel_snippet_title := None;
                             channel_uploads := Some "UU_x5XG1OV2P6uZZ5FSM9Ttw" |};
     playlist_items := Returned (Some [Some "dQw4w9WgXcQ"; None]);
     videos_details :=
       Returned (Some [ {| raw_id := Some "dQw4w9WgXcQ"; raw_title := Some "Rust 101";
                           raw_description := None; raw_publishedAt := None;
                           raw_thumbnail_high_url := None |} ]);
     chat := Returned None |}.

(** The in-memory cache holds, for the empty list of videos, an analysis that
    expired one millisecond before the clock of [catalog_answers]. *)
Definition expired_analysis : AdapterState Script :=
  {| world := catalog_answers;
     calls := [];
     memory := {[ "topics:" := {| SimpleCache.data := {| topics := ["rust"];
                                                         summary := "old" |};
                                  SimpleCache.expiresAt := 1699999999999 |} ]} |}.

End MoreScenarios.

(** [s'] differs from [s] by at most [n] further calls. *)
Definition issued_at_most {World : Type} (n : nat) (s s' : AdapterState World) : Prop :=
  memory s' = memory s
  /\ exists new, calls s' = calls s ++ new /\ (length new <= n)%nat.

(** The optional payload event of a forked stage. *)
Definition optional_event {A} (event : list A -> Route.Event) (payload : list A)
  : list Route.Event :=
  match payload with
  | [] => []
  | _ :: _ => [event payload]
  end.

(** The request reaches no service: its body does not parse, carries no
    usable [url], or the two required API keys are not both configured. *)
Definition rejected_before_services (env : ProcessEnv) (request : Route.Request) : Prop :=
  match Route.json_url request with
  | Thrown _ => True
  | Returned url =>
      truthy url = false \/ truthy (YOUTUBE_API_KEY env) = false
      \/ truthy (OPENAI_API_KEY env) = false
  end.

(** ** The page that consumes the stream (app/page.tsx, handleSubmit) *)

Module Client.

(** [Partial<AnalysisResult>]: a field is [None] until its event arrives. *)
Record AnalysisResult : Type :=
  { channelName : option string;
    videos : option (list YouTubeVideo);
    topics : option TopicAnalysis;
    news : option (list NewsArticle);
    redditPosts : option (list RedditPost);
    videoIdeas : option (list VideoIdea) }.

(** The React state of the page. *)
Record State : Type :=
  { loading : bool;
    status : string;
    result : AnalysisResult;
    error : option string }.

(** The state set at the top of [handleSubmit]. *)
Definition submitted : State :=
  {| loading := true;
     status := EmptyString;
     result := {| channelName := None; videos := None; topics := None; news := None;
                  redditPosts := None; videoIdeas := None |};
     error := None |}.

(** The [switch (data.type)] applied to one event that reached the page as a
    whole [data:] line. *)
Definition handle (s : State) (data : Route.Event) : State :=
  let prev := result s in
  match data with
  | Route.EvStatus message =>
      {| loading := loading s; status := message; result := prev; error := error s |}
  | Route.EvVideos vs name =>
      {| loading := loading s; status := EmptyString;
         result := {| channelName := Some name; videos := Some vs; topics := topics prev;
                      news := news prev; redditPosts := redditPosts prev;
                      videoIdeas := videoIdeas prev |};
         error := error s |}
  | Route.EvTopics analysis =>
      {| loading := loading s; status := EmptyString;
         result := {| channelName := channelName prev; videos := videos prev;
                      topics := Some analysis; news := news prev;
                      redditPosts := redditPosts prev; videoIdeas := videoIdeas prev |};
         error := error s |}
  | Route.EvNews articles =>
      {| loading := loading s; status := status s;
         result := {| channelName := channelName prev; videos := videos prev;
                      topics := topics prev; news := Some articles;
                      redditPosts := redditPosts prev; videoIdeas := videoIdeas prev |};
         error := error s |}
  | Route.EvReddit posts =>
      {| loading := loading s; status := status s;
         result := {| channelName := channelName prev; videos := videos prev;
                      topics := topics prev; news := news prev;
                      redditPosts := Some posts; videoIdeas := videoIdeas prev |};
         error := error s |}
  | Route.EvIdeas ideas =>
      {| loading := loading s; status := EmptyString;
         result := {| channelName := channelName prev; videos := videos prev;
                      topics := topics prev; news := news prev;
                      redditPosts := redditPosts prev; videoIdeas := Some ideas |};
         error := error s |}
  | Route.EvComplete =>
      {| loading := false; status := EmptyString; result := prev; error := error s |}
  | Route.EvError message _ =>
      {| loading := false; status := EmptyString; result := prev;
         error := Some message |}
  end.

(** The page after the events of a stream, each received whole and in
    order: every [data:] line arrives inside one chunk of the reader.  The
    read loop of the page decodes and splits each chunk by itself, without
    carrying an unfinished line over to the next chunk, so an event whose
    line is cut by a chunk boundary fails to parse and is skipped; such
    deliveries are outside [receive]. *)
Definition receive (events : list Route.Event) : State :=
  fold_left handle events submitted.

(** [[] ] shown as a missing field: what the page holds for a forked stage. *)
Definition shown {A} (payload : list A) : option (list A) :=
  match payload with
  | [] => None
  | _ :: _ => Some payload
  end.

End Client.

(** * Properties *)

(** Unfold the monadic plumbing of the adapters. *)
Ltac run_monad :=
  unfold bind, ret, try_catch, throw, settled, modify, gets, Adapters.issue,
    Adapters.Date_now, Adapters.Date_today, Adapters.lift_outcome in *; simpl in *.

Module RateLimiterFacts.
Import RateLimiter.

Lemma check_fresh now id maxR w (limits : gmap string RateLimitEntry) :
  opens_window now id limits ->
  check now id maxR w limits =
    ({| allowed := true; remaining := maxR - 1; result_resetAt := now + w * 1000 |},
     <[id := {| count := 1; resetAt := now + w * 1000 |}]> limits).
Proof.
  unfold opens_window, check. destruct (limits !! id) as [e|]; [|done].
  intros H. by rewrite bool_decide_eq_true_2.
Qed.

Lemma check_within_denied now id maxR w (limits : gmap string RateLimitEntry) e :
  limits !! id = Some e -> now <= resetAt e -> count e >= maxR ->
  check now id maxR w limits =
    ({| allowed := false; remaining := 0; result_resetAt := resetAt e |}, limits).
Proof.
  intros Hl Hn Hc. unfold check. rewrite Hl.
  rewrite bool_decide_eq_false_2 by lia. by rewrite bool_decide_eq_true_2.
Qed.

Lemma check_within_allowed now id maxR w (limits : gmap string RateLimitEntry) e :
  limits !! id = Some e -> now <= resetAt e -> count e < maxR ->
  check now id maxR w limits =
    ({| allowed := true; remaining := maxR - (count e + 1); result_resetAt := resetAt e |},
     <[id := {| count := count e + 1; resetAt := resetAt e |}]> limits).
Proof.
  intros Hl Hn Hc. unfold check. rewrite Hl.
  rewrite bool_decide_eq_false_2 by lia. by rewrite bool_decide_eq_false_2 by lia.
Qed.

End RateLimiterFacts.

Module RateLimiterClaims.
Import RateLimiter RateLimiterFacts.

Lemma checks_within_window id maxR w times :
  forall (limits : gmap string RateLimitEntry) e,
    limits !! id = Some e ->
    Forall (fun t => t <= resetAt e) times ->
    map allowed (checks times id maxR w limits).1
      = expected_allowed (count e) maxR (length times)
    /\ Forall (fun r => result_resetAt r = resetAt e) (checks times id maxR w limits).1.
Proof.
  induction times as [|t times IH]; intros limits e Hl Hts; simpl.
  - split; constructor.
  - inversion Hts as [|? ? Ht Hrest]; subst.
    case_bool_decide as Hc.
    + rewrite (check_within_denied _ _ _ _ _ e) by done.
      destruct (IH limits e Hl Hrest) as [IHa IHr].
      destruct (checks times id maxR w limits) as [rs l'] eqn:E; simpl in *.
      split; [by rewrite IHa | by constructor].
    + rewrite (check_within_allowed _ _ _ _ _ e) by (done || lia).
      set (e' := {| count := count e + 1; resetAt := resetAt e |}).
      destruct (IH (<[id := e']> limits) e') as [IHa IHr];
        [by rewrite lookup_insert_eq | done |].
      destruct (checks times id maxR w (<[id := e']> limits)) as [rs l'] eqn:E;
        simpl in *.
      split; [by rewrite IHa | by constructor].
Qed.

(** C5 (counterexample): with ten requests counted and [resetAt =
    1700000060000], a call at exactly that instant is refused against the old
    window and the stored window is left as it was. *)
Lemma check_at_resetAt_counts_against_old_window :
  check 1700000060000 "203.0.113.7" 10 60 exhausted_window
    = ({| allowed := false; remaining := 0; result_resetAt := 1700000060000 |},
       exhausted_window)
  /\ ~ fresh_window_at_resetAt.
Proof.
  assert (Hrun : check 1700000060000 "203.0.113.7" 10 60 exhausted_window
    = ({| allowed := false; remaining := 0; result_resetAt := 1700000060000 |},
       exhausted_window)).
  { apply (check_within_denied _ _ _ _ _ {| count := 10; resetAt := 1700000060000 |});
      [done | simpl; lia | simpl; lia]. }
  split; [exact Hrun|].
  intros Hclaim.
  specialize (Hclaim exhausted_window "203.0.113.7"
                {| count := 10; resetAt := 1700000060000 |} 10 60 eq_refl).
  simpl in Hclaim. rewrite Hrun in Hclaim. discriminate (f_equal (fun p => allowed p.1) Hclaim).
Qed.

(** C5 (amended): the window test is the strict [now > resetAt].  A call at
    exactly [resetAt] still belongs to the stored window: it is refused when
    the count has reached [maxRequests] and otherwise increments the count,
    with [resetAt] unchanged in both cases.  A fresh window with count 1,
    [allowed = true] and [remaining = maxRequests - 1] is opened by a call at
    any instant strictly after [resetAt]. *)
Theorem check_window_boundary (limits : gmap string RateLimitEntry) id e maxR w :
  limits !! id = Some e ->
  check (resetAt e) id maxR w limits =
    (if bool_decide (count e >= maxR) then
       ({| allowed := false; remaining := 0; result_resetAt := resetAt e |}, limits)
     else
       ({| allowed := true; remaining := maxR - (count e + 1);
           result_resetAt := resetAt e |},
        <[id := {| count := count e + 1; resetAt := resetAt e |}]> limits))
  /\ forall now, now > resetAt e ->
       check now id maxR w limits =
         ({| allowed := true; remaining := maxR - 1; result_resetAt := now + w * 1000 |},
          <[id := {| count := 1; resetAt := now + w * 1000 |}]> limits).
Proof.
  intros Hl. split.
  - case_bool_decide.
    + by apply check_within_denied.
    + apply check_within_allowed; [done | lia | lia].
  - intros now Hnow. apply check_fresh. unfold opens_window. by rewrite Hl.
Qed.

Lemma check_window_boundary_witness :
  exhausted_window !! "203.0.113.7" = Some {| count := 10; resetAt := 1700000060000 |}
  /\ check 1700000060000 "203.0.113.7" 10 60 exhausted_window
       = ({| allowed := false; remaining := 0; result_resetAt := 1700000060000 |},
          exhausted_window).
Proof.
  split; [reflexivity|].
  exact (proj1 (check_window_boundary exhausted_window "203.0.113.7"
                  {| count := 10; resetAt := 1700000060000 |} 10 60 eq_refl)).
Defined.

(** C6: eleven consecutive [check] calls for one identifier with
    [maxRequests = 10], the first of which opens the window and the other ten
    of which arrive no later than its reset instant: the first ten are
    allowed, the eleventh is refused, and all eleven results carry the same
    [resetAt] (that of the window opened by the first call). *)
Theorem eleven_checks_in_one_window (limits : gmap string RateLimitEntry)
    id w t1 (later : list Z) :
  opens_window t1 id limits ->
  length later = 10%nat ->
  Forall (fun t => t <= t1 + w * 1000) later ->
  map allowed (checks (t1 :: later) id 10 w limits).1 = replicate 10 true ++ [false]
  /\ Forall (fun r => result_resetAt r = t1 + w * 1000)
       (checks (t1 :: later) id 10 w limits).1.
Proof.
  intros Hopen Hlen Hin. simpl.
  rewrite (check_fresh _ _ _ _ _ Hopen).
  set (e := {| count := 1; resetAt := t1 + w * 1000 |}).
  destruct (checks_within_window id 10 w later (<[id := e]> limits) e) as [Ha Hr];
    [by rewrite lookup_insert_eq | done |].
  destruct (checks later id 10 w (<[id := e]> limits)) as [rs l'] eqn:E; simpl in *.
  rewrite Ha, Hlen. split; [reflexivity | by constructor].
Qed.

Lemma eleven_checks_in_one_window_witness :
  map allowed
    (checks (1000 :: [1001; 1002; 1003; 1004; 1005; 2000; 3000; 4000; 60999; 61000])
       "203.0.113.7" 10 60 ∅).1
    = replicate 10 true ++ [false]
  /\ Forall (fun r => result_resetAt r = 1000 + 60 * 1000)
       (checks (1000 :: [1001; 1002; 1003; 1004; 1005; 2000; 3000; 4000; 60999; 61000])
          "203.0.113.7" 10 60 ∅).1.
Proof.
  apply (eleven_checks_in_one_window ∅ "203.0.113.7" 60 1000
           [1001; 1002; 1003; 1004; 1005; 2000; 3000; 4000; 60999; 61000]).
  - exact I.
  - reflexivity.
  - repeat constructor; lia.
Defined.

End RateLimiterClaims.

Module SimpleCacheClaims.
Import SimpleCache.

Section Facts.
Context {T : Type}.
Implicit Types (cache : gmap string (CacheEntry T)) (k : string) (v : T).

Lemma get_absent cache k now :
  cache !! k = None -> get now k cache = (None, cache).
Proof. intros Hk. unfold get. by rewrite Hk. Qed.

Lemma get_live cache k e now :
  cache !! k = Some e -> now <= expiresAt e -> get now k cache = (Some (data e), cache).
Proof.
  intros Hk Hnow. unfold get. rewrite Hk. by rewrite bool_decide_eq_false_2 by lia.
Qed.

Lemma get_expired cache k e now :
  cache !! k = Some e -> now > expiresAt e ->
  get now k cache = (None, base.delete k cache).
Proof.
  intros Hk Hnow. unfold get. rewrite Hk. by rewrite bool_decide_eq_true_2.
Qed.

(** Operations on another key leave the binding of [k] as it is. *)
Lemma other_key_preserves cache k k' v now ttl :
  k' <> k ->
  (set now k' v ttl cache) !! k = cache !! k
  /\ (delete k' cache) !! k = cache !! k
  /\ (get now k' cache).2 !! k = cache !! k.
Proof.
  intros Hne. unfold set, delete, get. split; [|split].
  - by rewrite lookup_insert_ne.
  - by rewrite lookup_delete_ne.
  - destruct (cache !! k') as [e|]; [|done].
    case_bool_decide; simpl; [by rewrite lookup_delete_ne | done].
Qed.

End Facts.

(** C8 (counterexample): with a negative [ttl] the entry is stored already
    expired: [set] at instant 5000 with [ttl = -1] followed by [get] at the
    same instant returns absent and evicts the entry. *)
Lemma set_negative_ttl_then_get_is_absent :
  get 5000 "channel:topics:UC1" (set 5000 "channel:topics:UC1" 7%nat (-1) ∅)
    = (None, ∅).
Proof.
  rewrite (get_expired _ _ {| data := 7%nat; expiresAt := 5000 + -1 * 1000 |}).
  - unfold set. by rewrite delete_insert_eq, delete_empty.
  - apply lookup_insert_eq.
  - simpl. lia.
Qed.

(** C8 (amended): for every key [k], value [v] and [ttl]: [set(k,v,ttl)]
    followed by [get(k)] no later than [ttl] seconds after the [set] (so
    immediately, when [ttl >= 0]) returns [v] and keeps the entry; a [get(k)]
    performed after the entry's expiry has passed returns absent and removes
    the entry from the store; after [delete(k)] the key is unbound, a [get(k)]
    on a store where [k] is unbound returns absent and changes nothing, and
    [set], [get] and [delete] on other keys leave [k] unbound. *)
Theorem cache_set_get_delete {T : Type} (cache : gmap string (CacheEntry T))
    (k : string) (v : T) (ttl now : Z) :
  (forall now', now' <= now + ttl * 1000 ->
     get now' k (set now k v ttl cache) = (Some v, set now k v ttl cache))
  /\ (0 <= ttl -> get now k (set now k v ttl cache) = (Some v, set now k v ttl cache))
  /\ (forall e now', cache !! k = Some e -> now' > expiresAt e ->
        get now' k cache = (None, base.delete k cache)
        /\ (get now' k cache).2 !! k = None)
  /\ (delete k cache) !! k = None
  /\ (forall cache' : gmap string (CacheEntry T), cache' !! k = None ->
        (forall now', get now' k cache' = (None, cache'))
        /\ (forall k' v' ttl' now', k' <> k ->
              (set now' k' v' ttl' cache') !! k = None
              /\ (delete k' cache') !! k = None
              /\ (get now' k' cache').2 !! k = None)).
Proof.
  assert (Hlive : forall now', now' <= now + ttl * 1000 ->
     get now' k (set now k v ttl cache) = (Some v, set now k v ttl cache)).
  { intros now' Hle.
    apply (get_live _ _ {| data := v; expiresAt := now + ttl * 1000 |});
      [apply lookup_insert_eq | done]. }
  split; [exact Hlive|].
  split; [intros Httl; apply Hlive; lia|].
  split.
  { intros e now' Hk Hexp. rewrite (get_expired _ _ e) by done.
    split; [done | apply lookup_delete_eq]. }
  split; [apply lookup_delete_eq|].
  intros cache' Hk. split.
  - intros now'. by apply get_absent.
  - intros k' v' ttl' now' Hne.
    destruct (other_key_preserves cache' k k' v' now' ttl' Hne) as (-> & -> & ->).
    done.
Qed.

(** One hour of TTL: the value is read back at the instant of the [set]. *)
Lemma cache_set_get_delete_witness :
  get 1700000000000 "topics:v1,v2"
    (set 1700000000000 "topics:v1,v2" ["rust"; "wasm"] 3600 ∅)
  = (Some ["rust"; "wasm"],
     set 1700000000000 "topics:v1,v2" ["rust"; "wasm"] 3600 ∅).
Proof.
  apply (proj1 (proj2 (cache_set_get_delete ∅ "topics:v1,v2" ["rust"; "wasm"]
                         3600 1700000000000))).
  lia.
Defined.

End SimpleCacheClaims.

Module TokenCacheClaims.
Import Adapters Scenarios.

Section Facts.
Context {World : Type} `{External World}.

Lemma getCached_token_spec key (s : AdapterState World) :
  getCached_token key s =
    (Returned (match (kv_get_token key (world s)).1 with
               | Returned v => v
               | Thrown _ => None
               end),
     {| world := (kv_get_token key (world s)).2; calls := calls s ++ [KvGet key];
        memory := memory s |}).
Proof.
  unfold getCached_token. run_monad.
  destruct (kv_get_token key (world s)) as [[v|m] w]; reflexivity.
Qed.

Lemma setCached_token_spec key d ttl (s : AdapterState World) :
  setCached_token key d ttl s =
    (Returned tt,
     {| world := (kv_set_token key d ttl (world s)).2;
        calls := calls s ++ [KvSetToken key d ttl]; memory := memory s |}).
Proof.
  unfold setCached_token. run_monad.
  destruct (kv_set_token key d ttl (world s)) as [[[]|m] w]; reflexivity.
Qed.

End Facts.

(** C7 (counterexample): without provider credentials in the environment the
    function returns absent even though the store holds a token that expires
    in one hour, and it makes no credential-exchange attempt (no call
    leaves the process at all). *)
Lemma no_credentials_no_token :
  token_expiresAt cached_token > clock warm + 60000
  /\ stored_token warm = Returned (Some cached_token)
  /\ getRedditAccessToken without_reddit_credentials (begin warm)
       = (Returned None, begin warm)
  /\ calls (getRedditAccessToken without_reddit_credentials (begin warm)).2 = [].
Proof. repeat split; reflexivity. Qed.

(** C7 (amended): when the provider credentials are configured, the token
    cache returns a cached bearer token unchanged whenever its stored expiry
    is more than 60 seconds in the future, without any credential exchange;
    when the stored token is within 60 seconds of expiry, or absent (a failing
    store read counts as absent), it performs exactly one credential-exchange
    attempt; on success it writes a new record to the store with TTL equal to
    the provider-declared lifetime minus 60 seconds (a failing store write is
    ignored) and returns the new bearer value; on failure it returns absent
    without throwing.  Without configured credentials (the client id or the
    client secret unset or empty) it returns absent at once, consulting
    neither the cache nor the provider: the state, and so the log of calls,
    is left as it was. *)
Theorem token_cache {World : Type} `{External World} (env : ProcessEnv)
    (s : AdapterState World) g w1 :
  kv_get_token "reddit:access_token" (world s) = (g, w1) ->
  (truthy (REDDIT_CLIENT_ID env) = false
   \/ truthy (REDDIT_CLIENT_SECRET env) = false ->
   getRedditAccessToken env s = (Returned None, s))
  /\
  (truthy (REDDIT_CLIENT_ID env) = true ->
  truthy (REDDIT_CLIENT_SECRET env) = true ->
  let cached := match g with Returned v => v | Thrown _ => None end in
  let exchange :=
    axios_post_access_token (default EmptyString (REDDIT_CLIENT_ID env))
      (default EmptyString (REDDIT_CLIENT_SECRET env))
      (or_else (REDDIT_USER_AGENT env) default_user_agent) in
  (forall c now w2,
      cached = Some c -> date_now w1 = (now, w2) ->
      token_expiresAt c > now + 60000 ->
      getRedditAccessToken env s =
        (Returned (Some (token c)),
         {| world := w2; calls := calls s ++ [KvGet "reddit:access_token"];
            memory := memory s |}))
  /\ (forall wr,
        (cached = None /\ wr = w1)
        \/ (exists c now, cached = Some c /\ date_now w1 = (now, wr)
                          /\ token_expiresAt c <= now + 60000) ->
        (forall m w3,
            exchange wr = (Thrown m, w3) ->
            getRedditAccessToken env s =
              (Returned None,
               {| world := w3;
                  calls := calls s ++ [KvGet "reddit:access_token"; TokenExchange];
                  memory := memory s |}))
        /\ (forall r w3 now' w4,
              exchange wr = (Returned r, w3) -> date_now w3 = (now', w4) ->
              let record := {| token := access_token r;
                               token_expiresAt := now' + expires_in r * 1000 |} in
              getRedditAccessToken env s =
                (Returned (Some (access_token r)),
                 {| world := (kv_set_token "reddit:access_token" record
                                (expires_in r - 60) w4).2;
                    calls := calls s ++
                      [KvGet "reddit:access_token"; TokenExchange;
                       KvSetToken "reddit:access_token" record (expires_in r - 60)];
                    memory := memory s |})))).
Proof.
  intros Hget. split.
  { intros Hmissing. unfold getRedditAccessToken.
    destruct Hmissing as [Hno | Hno]; rewrite Hno.
    - reflexivity.
    - by rewrite orb_true_r. }
  intros Hid Hsec cached exchange.
  assert (Hhead : forall k : option TokenRecord -> M (AdapterState World) (option string),
            bind (getCached_token "reddit:access_token") k s
            = k cached {| world := w1; calls := calls s ++ [KvGet "reddit:access_token"];
                          memory := memory s |}).
  { intros k. unfold bind at 1. rewrite getCached_token_spec, Hget. reflexivity. }
  unfold getRedditAccessToken. rewrite Hid, Hsec.
  change (negb true || negb true) with false. cbv iota zeta.
  rewrite Hhead. clear Hhead.
  split.
  - intros c now w2 -> Hnow Hfresh. run_monad. rewrite Hnow.
    by rewrite bool_decide_eq_true_2.
  - intros wr Hstale.
    assert (Hrefresh : forall k : bool -> M (AdapterState World) (option string),
              bind (match cached with
                    | Some c => now <- Adapters.Date_now ;;
                                ret (bool_decide (token_expiresAt c > now + 60000))
                    | None => ret false
                    end) k
                {| world := w1; calls := calls s ++ [KvGet "reddit:access_token"];
                   memory := memory s |}
              = k false {| world := wr; calls := calls s ++ [KvGet "reddit:access_token"];
                           memory := memory s |}).
    { intros k. destruct Hstale as [[-> ->] | (c & now & -> & Hnow & Hold)].
      - reflexivity.
      - run_monad. rewrite Hnow. by rewrite bool_decide_eq_false_2 by lia. }
    rewrite Hrefresh. clear Hrefresh. cbv iota.
    split.
    + intros m w3 Hex. unfold try_catch, bind at 1, issue. simpl.
      fold exchange. rewrite Hex. simpl. by rewrite <- app_assoc.
    + intros r w3 now' w4 Hex Hnow.
      unfold try_catch, bind at 1, issue. simpl. fold exchange. rewrite Hex.
      unfold bind at 1, Adapters.Date_now. simpl. rewrite Hnow.
      unfold bind at 1. rewrite setCached_token_spec. simpl.
      unfold ret. by rewrite <- !app_assoc.
Qed.

(** The stored token expires in thirty seconds: one exchange, the new record
    is written with TTL 86400 - 60, and the new bearer value is returned. *)
Lemma token_cache_witness :
  getRedditAccessToken with_credentials (begin stale)
    = (Returned (Some "n3wT0k3n"),
       {| world := stale;
          calls := [KvGet "reddit:access_token"; TokenExchange;
                    KvSetToken "reddit:access_token"
                      {| token := "n3wT0k3n";
                         token_expiresAt := 1700000000000 + 86400 * 1000 |}
                      (86400 - 60)];
          memory := ∅ |}).
Proof.
  refine (proj2 (proj2 (proj2 (token_cache with_credentials (begin stale)
            (stored_token stale) stale eq_refl) eq_refl eq_refl) stale _)
            {| access_token := "n3wT0k3n"; expires_in := 86400 |} stale
            1700000000000 stale eq_refl eq_refl).
  right. exists {| token := "0ldT0k3n"; token_expiresAt := 1700000030000 |}, 1700000000000.
  repeat split. simpl. lia.
Defined.

End TokenCacheClaims.

Module PoolingFacts.

Section FindIndex.
Context {A : Type} (pred : A -> bool).

Lemma findIndex_range (l : list A) :
  findIndex pred l = -1 \/ 0 <= findIndex pred l < Z.of_nat (length l).
Proof.
  induction l as [|x l IH]; cbn [findIndex length]; [by left|].
  destruct (pred x); [right; lia|].
  case_bool_decide; [by left | right; lia].
Qed.

Lemma findIndex_some (l : list A) :
  (exists y, y ∈ l /\ pred y = true) -> 0 <= findIndex pred l < Z.of_nat (length l).
Proof.
  intros (y & Hy & Hp). destruct (findIndex_range l) as [Hn|]; [|done].
  exfalso. induction l as [|x l IH]; [by inversion Hy|].
  cbn [findIndex] in Hn. destruct (pred x) eqn:Hx; [done|].
  case_bool_decide as Hi; [|pose proof (findIndex_range l); lia].
  inversion Hy; subst; [congruence | by apply IH].
Qed.

(** The index found in [pre ++ x :: suf] is the position of [x] exactly when
    [x] satisfies [pred] and nothing before it does. *)
Lemma findIndex_at (pre suf : list A) (x : A) :
  pred x = true ->
  (findIndex pred (pre ++ x :: suf) = Z.of_nat (length pre)
   <-> forall y, y ∈ pre -> pred y = false).
Proof.
  intros Hx. induction pre as [|p pre IH]; cbn [app findIndex length].
  - rewrite Hx. split; [|done]. intros _ y Hy. by inversion Hy.
  - destruct (pred p) eqn:Hp.
    + split; [lia|]. intros Hall. rewrite (Hall p) in Hp by constructor. done.
    + assert (Hsome : 0 <= findIndex pred (pre ++ x :: suf)).
      { apply findIndex_some. exists x. split; [|done].
        apply elem_of_app. right. constructor. }
      rewrite bool_decide_eq_false_2 by lia.
      split.
      * intros Heq y Hy. inversion Hy; subst; [done|].
        apply IH; [lia | done].
      * intros Hall. assert (findIndex pred (pre ++ x :: suf) = Z.of_nat (length pre)).
        { apply IH. intros y Hy. apply Hall. by constructor. }
        lia.
Qed.

End FindIndex.

(** [keep_first] depends on the seen URLs only as a set. *)
Lemma keep_first_ext (pool : list RedditPost) :
  forall seen seen' : list string,
    (forall u, u ∈ seen <-> u ∈ seen') -> keep_first seen pool = keep_first seen' pool.
Proof.
  induction pool as [|p pool IH]; intros seen seen' Hext; simpl; [done|].
  destruct (decide (post_url p ∈ seen)) as [Hin|Hnin].
  - rewrite (bool_decide_eq_true_2 _ Hin).
    rewrite bool_decide_eq_true_2 by (by apply Hext). by apply IH.
  - rewrite (bool_decide_eq_false_2 _ Hnin).
    rewrite bool_decide_eq_false_2 by (by rewrite <- Hext).
    f_equal. apply IH. intros u. rewrite !elem_of_cons, Hext. done.
Qed.

Lemma url_seen_iff (pre : list RedditPost) (x : RedditPost) :
  post_url x ∈ map post_url pre
  <-> ~ (forall y, y ∈ pre -> String.eqb (post_url y) (post_url x) = false).
Proof.
  split.
  - intros Hin Hall. apply list_elem_of_fmap in Hin as (y & Hu & Hy).
    specialize (Hall y Hy). rewrite Hu, String.eqb_refl in Hall. done.
  - intros Hnot. destruct (decide (post_url x ∈ map post_url pre)) as [|Hnin]; [done|].
    exfalso. apply Hnot. intros y Hy.
    apply String.eqb_neq. intros Heq. apply Hnin. rewrite <- Heq.
    apply list_elem_of_fmap. by exists y.
Qed.

(** The index-based filter of the source keeps exactly the first occurrences. *)
Lemma filter_indexed_keep_first (suf pre : list RedditPost) :
  filter_indexed
    (fun post index =>
       bool_decide (index =
         findIndex (fun p => String.eqb (post_url p) (post_url post)) (pre ++ suf)))
    (Z.of_nat (length pre)) suf
  = keep_first (map post_url pre) suf.
Proof.
  revert pre. induction suf as [|x suf IH]; intros pre; [done|].
  cbn [filter_indexed keep_first].
  pose proof (findIndex_at (fun p => String.eqb (post_url p) (post_url x))
                pre suf x (String.eqb_refl _)) as Hat.
  pose proof (url_seen_iff pre x) as Hseen.
  specialize (IH (pre ++ [x])).
  rewrite <- app_assoc in IH. cbn [app] in IH.
  rewrite length_app in IH. cbn [length] in IH.
  replace (Z.of_nat (length pre + 1)) with (Z.of_nat (length pre) + 1) in IH by lia.
  rewrite IH.
  destruct (decide (post_url x ∈ map post_url pre)) as [Hin|Hnin].
  - rewrite (bool_decide_eq_true_2 _ Hin).
    rewrite bool_decide_eq_false_2 by (intros Heq; symmetry in Heq; tauto).
    apply keep_first_ext. intros u. rewrite map_app, elem_of_app. cbn [map].
    rewrite list_elem_of_singleton. split; [|tauto]. intros [?| ->]; done.
  - rewrite (bool_decide_eq_false_2 _ Hnin).
    rewrite bool_decide_eq_true_2.
    + f_equal. apply keep_first_ext. intros u.
      rewrite map_app, elem_of_app, elem_of_cons. cbn [map].
      rewrite list_elem_of_singleton. tauto.
    + symmetry. apply Hat. intros y Hy.
      destruct (String.eqb (post_url y) (post_url x)) eqn:E; [|done].
      exfalso. apply Hnin. apply String.eqb_eq in E. rewrite <- E.
      apply list_elem_of_fmap. by exists y.
Qed.

Lemma uniquePosts_keep_first (pool : list RedditPost) :
  uniquePosts pool = keep_first [] pool.
Proof. exact (filter_indexed_keep_first pool []). Qed.

Lemma keep_first_sound (pool : list RedditPost) :
  forall (seen : list string) (p : RedditPost),
    p ∈ keep_first seen pool ->
    (post_url p ∉ seen) /\ first_with_url (post_url p) pool = Some p.
Proof.
  unfold first_with_url.
  induction pool as [|q pool IH]; intros seen p Hp; simpl in *; [by inversion Hp|].
  destruct (decide (post_url q ∈ seen)) as [Hin|Hnin].
  - rewrite (bool_decide_eq_true_2 _ Hin) in Hp.
    destruct (IH _ _ Hp) as [Hns Hfirst]. split; [done|].
    destruct (String.eqb (post_url q) (post_url p)) eqn:E; [|done].
    apply String.eqb_eq in E. congruence.
  - rewrite (bool_decide_eq_false_2 _ Hnin) in Hp.
    apply elem_of_cons in Hp as [->|Hp].
    + by rewrite String.eqb_refl.
    + destruct (IH _ _ Hp) as [Hns Hfirst].
      rewrite not_elem_of_cons in Hns. destruct Hns as [Hne Hns].
      split; [done|].
      destruct (String.eqb (post_url q) (post_url p)) eqn:E; [|done].
      apply String.eqb_eq in E. congruence.
Qed.

Lemma keep_first_NoDup (pool : list RedditPost) :
  forall seen : list string, NoDup (map post_url (keep_first seen pool)).
Proof.
  induction pool as [|q pool IH]; intros seen; simpl; [constructor|].
  case_bool_decide; [apply IH|].
  simpl. constructor; [|apply IH].
  intros Hin. apply list_elem_of_fmap in Hin as (p & Hu & Hp).
  apply keep_first_sound in Hp as [Hns _]. apply Hns. rewrite Hu. constructor.
Qed.

Lemma keep_first_complete (pool : list RedditPost) :
  forall (seen : list string) (q : RedditPost),
    q ∈ pool -> post_url q ∉ seen ->
    exists p, p ∈ keep_first seen pool /\ post_url p = post_url q.
Proof.
  induction pool as [|x pool IH]; intros seen q Hq Hns; [by inversion Hq|].
  simpl. destruct (decide (post_url x ∈ seen)) as [Hin|Hnin].
  - rewrite (bool_decide_eq_true_2 _ Hin).
    apply elem_of_cons in Hq as [->|Hq]; [done|]. by apply IH.
  - rewrite (bool_decide_eq_false_2 _ Hnin).
    destruct (decide (post_url q = post_url x)) as [Heq|Hne].
    + exists x. split; [constructor | done].
    + apply elem_of_cons in Hq as [->|Hq]; [done|].
      destruct (IH (post_url x :: seen) q Hq) as (p & Hp & Hu).
      * rewrite not_elem_of_cons. done.
      * exists p. split; [by constructor | done].
Qed.

(** *** The stable sort *)

Lemma sort_insert_perm {A} (compare : A -> A -> Z) (x : A) (l : list A) :
  sort_insert compare x l ≡ₚ x :: l.
Proof.
  induction l as [|y l IH]; simpl; [done|].
  case_bool_decide; [|done]. rewrite IH. apply perm_swap.
Qed.

Lemma sort_perm {A} (compare : A -> A -> Z) (l : list A) : sort compare l ≡ₚ l.
Proof.
  induction l as [|x l IH]; simpl; [done|].
  rewrite sort_insert_perm. by constructor.
Qed.

Lemma sort_insert_sorted (x : RedditPost) (l : list RedditPost) :
  StronglySorted score_ge l -> StronglySorted score_ge (sort_insert by_score_desc x l).
Proof.
  induction 1 as [|y l Hs IH Hall]; simpl; [repeat constructor|].
  unfold by_score_desc at 1. case_bool_decide as Hc.
  - constructor; [done|].
    rewrite Forall_forall in *. intros z Hz.
    rewrite (sort_insert_perm by_score_desc x l) in Hz.
    apply elem_of_cons in Hz as [->|Hz]; [unfold score_ge; lia | by apply Hall].
  - constructor; [by constructor|].
    constructor; [unfold score_ge; lia|].
    rewrite Forall_forall in *. intros z Hz. specialize (Hall z Hz).
    unfold score_ge in *. lia.
Qed.

Lemma sort_sorted (l : list RedditPost) : StronglySorted score_ge (sort by_score_desc l).
Proof.
  induction l as [|x l IH]; simpl; [constructor | by apply sort_insert_sorted].
Qed.

Lemma take_sorted (n : nat) (l : list RedditPost) :
  StronglySorted score_ge l -> StronglySorted score_ge (take n l).
Proof.
  intros Hs. revert n. induction Hs as [|x l Hs IH Hall]; intros [|n]; simpl;
    try constructor; [apply IH|].
  rewrite Forall_forall in *. intros z Hz. apply Hall.
  by apply (subseteq_take n l).
Qed.

Lemma sorted_descending (l : list RedditPost) :
  StronglySorted score_ge l -> score_descending l.
Proof.
  induction 1 as [|x l Hs IH Hall]; intros i j a b Hij Hi Hj; [by destruct i|].
  destruct j as [|j]; [lia|]. simpl in Hj.
  destruct i as [|i]; simpl in Hi.
  - inversion Hi; subst. rewrite Forall_forall in Hall. apply Hall.
    by eapply list_elem_of_lookup_2.
  - apply (IH i j); [lia | done | done].
Qed.

End PoolingFacts.

Module AdapterFacts.
Import Adapters.

Section Facts.
Context {World : Type} `{External World}.
Implicit Types (s : AdapterState World) (env : ProcessEnv).

Lemma extends_refl s : extends s s.
Proof. split; [done|]. exists []. by rewrite app_nil_r. Qed.

Lemma extends_trans s1 s2 s3 : extends s1 s2 -> extends s2 s3 -> extends s1 s3.
Proof.
  intros [Hm1 [n1 Hc1]] [Hm2 [n2 Hc2]]. split; [congruence|].
  exists (n1 ++ n2). by rewrite Hc2, Hc1, app_assoc.
Qed.

Lemma getRedditAccessToken_returns env s :
  exists t s', getRedditAccessToken env s = (Returned t, s') /\ extends s s'.
Proof.
  unfold getRedditAccessToken.
  destruct (negb (truthy (REDDIT_CLIENT_ID env)) || negb (truthy (REDDIT_CLIENT_SECRET env))).
  { eexists _, _. split; [reflexivity | apply extends_refl]. }
  unfold getCached_token, setCached_token. run_monad.
  destruct (kv_get_token "reddit:access_token" (world s)) as [[[c|]|m] w1]; simpl;
    try (destruct (date_now w1) as [now w2]; simpl; case_bool_decide; simpl);
    try (eexists _, _; split; [reflexivity|]; split; simpl; [done|];
         eexists; reflexivity);
    match goal with
    | |- context [axios_post_access_token ?a ?b ?c ?w] =>
        destruct (axios_post_access_token a b c w) as [[r|m'] w3]; simpl
    end;
    try (destruct (date_now w3) as [now' w4]; simpl;
         match goal with
         | |- context [kv_set_token ?a ?b ?c ?w] =>
             destruct (kv_set_token a b c w) as [[[]|m''] w5]; simpl
         end);
    eexists _, _; (split; [reflexivity|]); split; simpl; try done;
    rewrite <- ?app_assoc; eexists; reflexivity.
Qed.

Lemma searchRedditPublic_spec topic s :
  searchRedditPublic topic s =
    (Returned (posts_of (axios_get_public_search topic (world s)).1),
     {| world := (axios_get_public_search topic (world s)).2;
        calls := calls s ++ [PublicSearch topic]; memory := memory s |}).
Proof.
  unfold searchRedditPublic. run_monad.
  destruct (axios_get_public_search topic (world s)) as [[[children|]|m] w]; simpl;
    try reflexivity.
  case_bool_decide as Hlen; [|reflexivity].
  destruct children; [reflexivity | done].
Qed.

Lemma searchRedditWithOAuth_returns env topic s :
  exists posts s', searchRedditWithOAuth env topic s = (Returned posts, s') /\ extends s s'.
Proof.
  unfold searchRedditWithOAuth. unfold bind at 1.
  destruct (getRedditAccessToken_returns env s) as (t & s1 & -> & Hext).
  destruct (negb (truthy t)).
  { eexists _, _. split; [reflexivity | done]. }
  run_monad.
  destruct (axios_get_oauth_search _ _ _ (world s1)) as [[[children|]|m] w]; simpl;
    eexists _, _; (split; [reflexivity|]);
    (eapply extends_trans; [exact Hext|]); split; simpl; try done; eexists; reflexivity.
Qed.

Lemma searchRedditWithOAuth_no_results env topic s :
  no_results_anywhere -> (searchRedditWithOAuth env topic s).1 = Returned [].
Proof.
  intros [_ Hoauth]. unfold searchRedditWithOAuth. unfold bind at 1.
  destruct (getRedditAccessToken_returns env s) as (t & s1 & -> & Hext).
  destruct (negb (truthy t)); [reflexivity|].
  run_monad.
  specialize (Hoauth topic (default EmptyString t)
                (or_else (REDDIT_USER_AGENT env) default_user_agent) (world s1)).
  destruct (axios_get_oauth_search _ _ _ (world s1)) as [[[children|]|m] w]; simpl in *;
    by rewrite ?Hoauth.
Qed.

Lemma pool_posts (allPosts posts : list RedditPost) :
  (if bool_decide (0 < length posts)%nat then allPosts ++ posts else allPosts)
  = allPosts ++ posts.
Proof.
  case_bool_decide as Hlen; [done|].
  destruct posts; [by rewrite app_nil_r | simpl in Hlen; lia].
Qed.

Lemma search_topic_public env allPosts topic s :
  search_topic env false allPosts topic s =
    (Returned (allPosts ++ posts_of (axios_get_public_search topic (world s)).1),
     {| world := (axios_get_public_search topic (world s)).2;
        calls := calls s ++ [PublicSearch topic]; memory := memory s |}).
Proof.
  unfold search_topic. unfold bind at 1. rewrite searchRedditPublic_spec.
  rewrite <- pool_posts. by case_bool_decide.
Qed.

Lemma search_topic_oauth env allPosts topic s posts s1 :
  searchRedditWithOAuth env topic s = (Returned posts, s1) ->
  search_topic env true allPosts topic s =
    (if bool_decide (length posts = 0%nat) then
       (Returned (allPosts ++ posts_of (axios_get_public_search topic (world s1)).1),
        {| world := (axios_get_public_search topic (world s1)).2;
           calls := calls s1 ++ [PublicSearch topic]; memory := memory s1 |})
     else (Returned (allPosts ++ posts), s1)).
Proof.
  intros Hoauth. unfold search_topic. unfold bind at 1. unfold bind at 1.
  rewrite Hoauth. case_bool_decide.
  - rewrite searchRedditPublic_spec. rewrite <- pool_posts. by case_bool_decide.
  - unfold ret. rewrite <- pool_posts. by case_bool_decide.
Qed.

Lemma search_topic_returns env h allPosts topic s :
  exists posts s', search_topic env h allPosts topic s = (Returned (allPosts ++ posts), s')
                   /\ extends s s'
                   /\ (h = false -> calls s' = calls s ++ [PublicSearch topic])
                   /\ (no_results_anywhere -> posts = [])
                   /\ ((searchRedditWithOAuth env topic s).1 = Returned [] ->
                       PublicSearch topic ∈ calls s').
Proof.
  destruct h.
  - destruct (searchRedditWithOAuth_returns env topic s) as (posts & s1 & Hoauth & Hext).
    rewrite (search_topic_oauth _ _ _ _ _ _ Hoauth). rewrite Hoauth. simpl.
    case_bool_decide as Hlen.
    + eexists _, _. split; [reflexivity|].
      split; [|split; [done|split]].
      * eapply extends_trans; [exact Hext|]. split; [done|]. by eexists.
      * intros [Hpub _]. apply Hpub.
      * intros _. simpl. apply elem_of_app. right. constructor.
    + exists posts, s1. split; [reflexivity|].
      split; [done|split; [done|split]].
      * intros Hnone. pose proof (searchRedditWithOAuth_no_results env topic s Hnone) as Hz.
        rewrite Hoauth in Hz. simpl in Hz. congruence.
      * intros Hz. inversion Hz; subst. done.
  - rewrite search_topic_public. eexists _, _. split; [reflexivity|].
    split; [|split; [done|split]].
    + split; [done|]. by eexists.
    + intros [Hpub _]. apply Hpub.
    + intros _. simpl. apply elem_of_app. right. constructor.
Qed.

Lemma search_topics_returns env h topics :
  forall allPosts s,
  exists posts s', search_topics env h allPosts topics s = (Returned (allPosts ++ posts), s')
                   /\ extends s s'
                   /\ (h = false -> calls s' = calls s ++ map PublicSearch topics)
                   /\ (no_results_anywhere -> posts = [])
                   /\ ((forall topic s0, (searchRedditWithOAuth env topic s0).1 = Returned []) ->
                       forall topic, topic ∈ topics -> PublicSearch topic ∈ calls s').
Proof.
  induction topics as [|topic rest IH]; intros allPosts s; simpl.
  - exists [], s. rewrite app_nil_r. split; [reflexivity|].
    split; [apply extends_refl|]. split; [by rewrite app_nil_r|].
    split; [done|]. intros _ t Ht. by inversion Ht.
  - unfold bind at 1.
    destruct (search_topic_returns env h allPosts topic s)
      as (p1 & s1 & -> & Hext1 & Hpub1 & Hnone1 & Hfb1).
    destruct (IH (allPosts ++ p1) s1) as (p2 & s2 & -> & Hext2 & Hpub2 & Hnone2 & Hfb2).
    exists (p1 ++ p2), s2. rewrite app_assoc. split; [reflexivity|].
    split; [by eapply extends_trans|].
    split; [intros Hh; rewrite Hpub2, Hpub1 by done; by rewrite <- app_assoc|].
    split; [intros Hn; by rewrite Hnone1, Hnone2|].
    intros Hz t Ht. apply elem_of_cons in Ht as [->|Ht]; [|by apply Hfb2].
    destruct Hext2 as [_ [new ->]]. apply elem_of_app. left. by apply Hfb1.
Qed.

Lemma searchRedditPosts_spec env topics s :
  exists s',
    searchRedditPosts env topics s = (Returned (sortedPosts (pooledPosts env topics s)), s')
    /\ extends s s'
    /\ (hasOAuth env = false -> calls s' = calls s ++ map PublicSearch (take 3 topics))
    /\ (no_results_anywhere -> pooledPosts env topics s = [])
    /\ ((forall topic s0, (searchRedditWithOAuth env topic s0).1 = Returned []) ->
        hasOAuth env = true ->
        forall topic, topic ∈ take 3 topics -> PublicSearch topic ∈ calls s').
Proof.
  unfold searchRedditPosts, pooledPosts.
  destruct (search_topics_returns env (hasOAuth env) (take 3 topics) [] s)
    as (posts & s' & Hrun & Hext & Hpub & Hnone & Hfb).
  case_bool_decide as Hlen.
  - destruct topics; [|done]. simpl in *. exists s.
    split; [reflexivity|]. split; [apply extends_refl|].
    split; [by rewrite app_nil_r|]. split; [done|].
    intros _ _ t Ht. by inversion Ht.
  - unfold bind at 1. rewrite Hrun. simpl. exists s'.
    split; [reflexivity|]. split; [done|]. split; [done|].
    split; [done|]. intros Hz _. by apply Hfb.
Qed.

Lemma fetchRelevantNews_spec env topics s :
  fetchRelevantNews env topics s =
    if bool_decide (length topics = 0%nat) then (Returned [], s)
    else
      let query := String.concat " OR " (take 3 topics) in
      let '(today, w1) := date_today (world s) in
      if truthy (NEWS_API_KEY env) then
        let '(response, w2) :=
          axios_get_news query today (default EmptyString (NEWS_API_KEY env)) w1 in
        (Returned
           match response with
           | Returned (Some articles) =>
               map (fun article =>
                      {| news_title := article_title article;
                         news_url := article_url article;
                         news_source := or_else (article_source_name article) "Unknown";
                         news_publishedAt := article_publishedAt article |}) articles
           | Returned None => []
           | Thrown _ => []
           end,
         {| world := w2; calls := calls s ++ [NewsSearch query]; memory := memory s |})
      else (Returned [], {| world := w1; calls := calls s; memory := memory s |}).
Proof.
  unfold fetchRelevantNews. case_bool_decide; [reflexivity|].
  run_monad. destruct (date_today (world s)) as [today w1]. simpl.
  destruct (truthy (NEWS_API_KEY env)); [|reflexivity]. simpl.
  destruct (axios_get_news _ _ _ w1) as [[[articles|]|m] w2]; reflexivity.
Qed.

Lemma fetchRelevantNews_returns env topics s :
  exists news s', fetchRelevantNews env topics s = (Returned news, s').
Proof.
  rewrite fetchRelevantNews_spec.
  case_bool_decide; [by eexists _, _|]. cbv zeta.
  destruct (date_today (world s)) as [today w1].
  destruct (truthy (NEWS_API_KEY env)); [|by eexists _, _].
  destruct (axios_get_news _ _ _ w1) as [response w2]. by eexists _, _.
Qed.

Lemma getCached_videos_spec key s :
  getCached_videos key s =
    (Returned (match (kv_get_videos key (world s)).1 with
               | Returned v => v
               | Thrown _ => None
               end),
     {| world := (kv_get_videos key (world s)).2; calls := calls s ++ [KvGet key];
        memory := memory s |}).
Proof.
  unfold getCached_videos. run_monad.
  destruct (kv_get_videos key (world s)) as [[v|m] w]; reflexivity.
Qed.

Lemma videos_cache_miss key s :
  (forall hit, (kv_get_videos key (world s)).1 <> Returned (Some hit)) ->
  match (kv_get_videos key (world s)).1 with
  | Returned v => v
  | Thrown _ => None
  end = None.
Proof.
  intros Hmiss. destruct (kv_get_videos key (world s)).1 as [[hit|]|m]; try done.
  by destruct (Hmiss hit).
Qed.

End Facts.
End AdapterFacts.

Module AdapterClaims.
Import Adapters AdapterFacts PoolingFacts Scenarios.



(** C10: for every pooled list, the output [sortedPosts pool] of the
    forum-search adapter holds at most one post per URL, each being the first
    post of the pool with that URL; it is sorted by score in descending order
    and has at most 15 posts; when the pool has at most 15 distinct URLs every
    URL of the pool is present.  The adapter returns exactly
    [sortedPosts] of the list pooled by its loop. *)
Theorem pooled_output (pool : list RedditPost) :
  NoDup (map post_url (sortedPosts pool))
  /\ (forall p, p ∈ sortedPosts pool -> first_with_url (post_url p) pool = Some p)
  /\ score_descending (sortedPosts pool)
  /\ (length (sortedPosts pool) <= 15)%nat
  /\ ((length (uniquePosts pool) <= 15)%nat ->
      forall q, q ∈ pool -> exists p, p ∈ sortedPosts pool /\ post_url p = post_url q)
  /\ (forall (World : Type) (E : External World) env topics (s : AdapterState World),
        (searchRedditPosts env topics s).1
        = Returned (sortedPosts (pooledPosts env topics s))).
Proof.
  unfold sortedPosts. rewrite uniquePosts_keep_first.
  assert (Hperm : sort by_score_desc (keep_first [] pool) ≡ₚ keep_first [] pool)
    by apply sort_perm.
  repeat apply conj.
  - rewrite <- List.firstn_map. eapply sublist_NoDup; [|apply sublist_take].
    rewrite Hperm. apply keep_first_NoDup.
  - intros p Hp. apply (subseteq_take 15) in Hp. rewrite Hperm in Hp.
    by apply keep_first_sound in Hp as [_ Hfirst].
  - apply sorted_descending, take_sorted, sort_sorted.
  - rewrite length_take. lia.
  - intros Hlen q Hq.
    destruct (keep_first_complete pool [] q Hq) as (p & Hp & Hu); [by apply not_elem_of_nil|].
    exists p. split; [|done].
    rewrite take_ge by (by rewrite Hperm). by rewrite Hperm.
  - intros World E env topics s.
    destruct (searchRedditPosts_spec env topics s) as (s' & -> & _).
    unfold sortedPosts. by rewrite uniquePosts_keep_first.
Qed.


End AdapterClaims.

Module RouteClaims.
Import RateLimiter Route RouteScenarios.

(** Follow the route through one more await, check or branch. *)
Ltac walk_step :=
  match goal with
  | |- context [Date_now ?w] => destruct (Date_now w) as [? ?]
  | |- context [check ?n ?i ?m ?ws ?l] => destruct (check n i m ws l) as [[[] ? ?] ?]
  | |- context [json_url ?r] => destruct (json_url r) as [?|?]
  | |- context [getChannelIdFromUrl ?u ?w] =>
      destruct (getChannelIdFromUrl u w) as [[?|?] ?]
  | |- context [fetchChannelVideos ?c ?w] => destruct (fetchChannelVideos c w) as [[?|?] ?]
  | |- context [analyzeTopics ?v ?w] => destruct (analyzeTopics v w) as [[?|?] ?]
  | |- context [fetchRelevantNews ?t ?w] => destruct (fetchRelevantNews t w) as [[?|?] ?]
  | |- context [searchRedditPosts ?t ?w] => destruct (searchRedditPosts t w) as [[?|?] ?]
  | |- context [generateVideoIdeas ?v ?t ?n ?r ?w] =>
      destruct (generateVideoIdeas v t n r w) as [[?|?] ?]
  | |- context [truthy ?v] => destruct (truthy v)
  | |- context [bool_decide ?P] => destruct (bool_decide_reflect P)
  end; cbn -[check truthy or_else String.append].

Ltac walk :=
  unfold run, start, POST, try_catch, bind, settled, await, send, close, when,
    checkRateLimit, request_json, modify, ret;
  cbn -[check truthy or_else String.append];
  repeat walk_step.

(** C2: every run hands exactly one terminal event to [send]: one [complete]
    or one [error], never both; it is the last event of the run, the stream is
    closed once, and the body of [POST] itself never rejects. *)
Theorem exactly_one_terminal_event {W : Type} `{Services W}
    (env : ProcessEnv) (request : Request) (w : W)
    (limits0 : gmap string RateLimitEntry) :
  let events := emitted (run env request w limits0) in
  count_events is_terminal events = 1%nat
  /\ (count_events is_complete events = 1%nat /\ count_events is_error events = 0%nat
      \/ count_events is_complete events = 0%nat /\ count_events is_error events = 1%nat)
  /\ (exists earlier e, events = earlier ++ [e] /\ is_terminal e = true
                        /\ count_events is_terminal earlier = 0%nat)
  /\ closes (run env request w limits0) = 1%nat
  /\ (POST env request (start w limits0)).1 = Returned tt.
Proof.
  walk;
    (split; [reflexivity|]);
    (split; [first [left; split; reflexivity | right; split; reflexivity]|]);
    (split; [|split; reflexivity]);
    match goal with
    | |- exists earlier e, ?l = _ /\ _ =>
        exists (removelast l), (List.last l EvComplete); repeat split; reflexivity
    end.
Qed.

(** Membership in an explicit list, taken apart. *)
Ltac mem_cases H :=
  repeat first
    [ apply elem_of_nil in H; destruct H
    | apply elem_of_cons in H as [H|H]; [try discriminate H|] ].

Ltac mem_solve :=
  repeat first [ apply list_elem_of_here | apply list_elem_of_further ].

Lemma positive_length_nonempty {A} (l : list A) : (0 < length l)%nat <-> l <> [].
Proof. destruct l; simpl; split; (done || lia). Qed.

(** C3 (counterexample): every stage succeeds with an empty result; the
    news and forum stages are skipped, but the videos, topics and ideas
    payload events are emitted with their empty lists. *)
Lemma empty_ideas_are_emitted :
  emitted (run configured request nothing_found ∅)
    = [ EvStatus "Fetching channel videos...";
        EvVideos [] "Unknown Channel";
        EvStatus "Analyzing topics...";
        EvTopics {| topics := []; summary := EmptyString |};
        EvStatus "Fetching news and Reddit discussions...";
        EvStatus "Generating video ideas...";
        EvIdeas [];
        EvComplete ]
  /\ EvIdeas [] ∈ emitted (run configured request nothing_found ∅).
Proof. split; [reflexivity | vm_compute; mem_solve]. Qed.

(** C3 (amended): only the news and forum stages are gated on emptiness.  In
    every run, a [news] event is emitted exactly when the news fetch fulfilled
    with a non-empty list, and a [reddit] event exactly when the forum search
    fulfilled with a non-empty list; an empty list (or a rejected fetch)
    produces no event for that stage.  The [videos], [topics] and [ideas]
    events are emitted whenever their stage returned, whatever its payload. *)
Theorem payload_events {W : Type} `{Services W}
    (env : ProcessEnv) (request : Request) (w : W)
    (limits0 : gmap string RateLimitEntry) :
  (forall news,
      EvNews news ∈ emitted (run env request w limits0)
      <-> news <> [] /\ exists topics,
            CalledFetchRelevantNews topics (Returned news)
              ∈ history (run env request w limits0))
  /\ (forall posts,
        EvReddit posts ∈ emitted (run env request w limits0)
        <-> posts <> [] /\ exists topics,
              CalledSearchRedditPosts topics (Returned posts)
                ∈ history (run env request w limits0))
  /\ (forall ideas,
        EvIdeas ideas ∈ emitted (run env request w limits0)
        <-> exists videos topics news posts,
              CalledGenerateVideoIdeas videos topics news posts (Returned ideas)
                ∈ history (run env request w limits0))
  /\ (forall videos channelName,
        EvVideos videos channelName ∈ emitted (run env request w limits0)
        <-> exists channelId,
              CalledFetchChannelVideos channelId
                (Returned {| result_videos := videos; result_channelName := channelName |})
                ∈ history (run env request w limits0))
  /\ (forall analysis,
        EvTopics analysis ∈ emitted (run env request w limits0)
        <-> exists videos,
              CalledAnalyzeTopics videos (Returned analysis)
                ∈ history (run env request w limits0)).
Proof.
  walk;
    try (exfalso; match goal with Hlen : (0 < 0)%nat |- _ => by apply Nat.lt_irrefl in Hlen end);
    repeat match goal with
           | Hlen : (0 < length _)%nat |- _ => apply positive_length_nonempty in Hlen
           | Hlen : ¬ (0 < length ?l)%nat |- _ =>
               assert (l = []) by (destruct l; [done | exfalso; apply Hlen; simpl; lia]);
               clear Hlen; try subst l
           end;
    repeat split;
    repeat match goal with
           | |- _ -> _ => intros ?
           | Hx : exists _, _ |- _ => destruct Hx as [? Hx]
           | Hx : _ /\ _ |- _ => destruct Hx as [? Hx]
           end;
    try match goal with
        | Hx : _ ∈ _ |- _ => mem_cases Hx; simplify_eq
        end;
    try done;
    try (repeat eexists; mem_solve; fail);
    try (mem_solve; fail);
    try (lazymatch goal with r : VideosResult |- _ => destruct r end; simpl in *;
         simplify_eq; repeat eexists; mem_solve; fail).
Qed.

(** C1 (counterexample): channel resolution succeeds, videos and topics are
    obtained, the news fetch rejects and the forum fetch fulfils with three
    posts; idea generation is invoked with the empty news list and the posts,
    but its completion call fails: the run ends with an [error] event and no
    [complete] event. *)
Lemma failed_ideas_end_in_error :
  CalledFetchRelevantNews ["rust"; "wasm"] (Thrown "socket hang up")
    ∈ history (run configured request news_and_ideas_down ∅)
  /\ CalledSearchRedditPosts ["rust"; "wasm"] (Returned three_posts)
       ∈ history (run configured request news_and_ideas_down ∅)
  /\ CalledGenerateVideoIdeas (result_videos two_videos) ["rust"; "wasm"] [] three_posts
       (Thrown "429 Too Many Requests")
       ∈ history (run configured request news_and_ideas_down ∅)
  /\ List.last (emitted (run configured request news_and_ideas_down ∅)) EvComplete
       = EvError "429 Too Many Requests" None
  /\ count_events is_error (emitted (run configured request news_and_ideas_down ∅)) = 1%nat
  /\ count_events is_complete (emitted (run configured request news_and_ideas_down ∅)) = 0%nat.
Proof. repeat split; try reflexivity; vm_compute; mem_solve. Qed.

(** C1 (amended): in a run where the news fetch rejects and the forum fetch
    fulfils with a non-empty list (so channel resolution succeeded and videos
    and topics were obtained), the orchestrator substitutes an empty list for
    the failed news branch and still invokes idea generation, once, with the
    empty news list and the fetched posts; it emits no [news] event; and,
    provided idea generation returns, it emits no [error] event and the events
    are status, videos, status, topics, status, reddit, status, ideas,
    complete.  When idea generation throws, the run ends with one [error]
    event in place of ideas and complete. *)
Theorem news_failure_is_isolated {W : Type} `{Services W}
    (env : ProcessEnv) (request : Request) (w : W)
    (limits0 : gmap string RateLimitEntry)
    (topicsN topicsR : list string) (message : string) (posts : list RedditPost) :
  CalledFetchRelevantNews topicsN (Thrown message)
    ∈ history (run env request w limits0) ->
  CalledSearchRedditPosts topicsR (Returned posts)
    ∈ history (run env request w limits0) ->
  posts <> [] ->
  exists url resolved channelId fetched analysis result,
    history (run env request w limits0)
      = [ CalledGetChannelIdFromUrl url resolved;
          CalledFetchChannelVideos channelId (Returned fetched);
          CalledAnalyzeTopics (result_videos fetched) (Returned analysis);
          CalledFetchRelevantNews (topics analysis) (Thrown message);
          CalledSearchRedditPosts (topics analysis) (Returned posts);
          CalledGenerateVideoIdeas (result_videos fetched) (topics analysis) [] posts
            result ]
    /\ emitted (run env request w limits0)
       = [ EvStatus "Fetching channel videos...";
           EvVideos (result_videos fetched) (result_channelName fetched);
           EvStatus "Analyzing topics...";
           EvTopics analysis;
           EvStatus "Fetching news and Reddit discussions...";
           EvReddit posts;
           EvStatus "Generating video ideas..." ]
         ++ match result with
            | Returned ideas => [EvIdeas ideas; EvComplete]
            | Thrown m => [EvError (or_else (Some m) "An error occurred") None]
            end
    /\ count_events is_news (emitted (run env request w limits0)) = 0%nat
    /\ (forall ideas, result = Returned ideas ->
          count_events is_error (emitted (run env request w limits0)) = 0%nat
          /\ List.last (emitted (run env request w limits0)) (EvStatus EmptyString)
             = EvComplete).
Proof.
  walk;
    try (exfalso; match goal with Hlen : (0 < 0)%nat |- _ => by apply Nat.lt_irrefl in Hlen end);
    intros Hnews Hreddit Hposts;
    mem_cases Hnews; mem_cases Hreddit; simplify_eq;
    try match goal with
        | Hlen : ¬ (0 < length ?l)%nat |- _ =>
            exfalso; apply Hlen; destruct l; [done | simpl; lia]
        end;
    do 6 eexists; (split; [reflexivity|]); (split; [reflexivity|]);
    (split; [reflexivity|]); intros ideas Hideas; simplify_eq; split; reflexivity.
Qed.

Lemma news_failure_is_isolated_witness :
  exists url resolved channelId fetched analysis result,
    history (run configured request news_down ∅)
      = [ CalledGetChannelIdFromUrl url resolved;
          CalledFetchChannelVideos channelId (Returned fetched);
          CalledAnalyzeTopics (result_videos fetched) (Returned analysis);
          CalledFetchRelevantNews (topics analysis) (Thrown "socket hang up");
          CalledSearchRedditPosts (topics analysis) (Returned three_posts);
          CalledGenerateVideoIdeas (result_videos fetched) (topics analysis) []
            three_posts result ]
    /\ emitted (run configured request news_down ∅)
       = [ EvStatus "Fetching channel videos...";
           EvVideos (result_videos fetched) (result_channelName fetched);
           EvStatus "Analyzing topics...";
           EvTopics analysis;
           EvStatus "Fetching news and Reddit discussions...";
           EvReddit three_posts;
           EvStatus "Generating video ideas..." ]
         ++ match result with
            | Returned ideas => [EvIdeas ideas; EvComplete]
            | Thrown m => [EvError (or_else (Some m) "An error occurred") None]
            end
    /\ count_events is_news (emitted (run configured request news_down ∅)) = 0%nat
    /\ (forall ideas, result = Returned ideas ->
          count_events is_error (emitted (run configured request news_down ∅)) = 0%nat
          /\ List.last (emitted (run configured request news_down ∅)) (EvStatus EmptyString)
             = EvComplete).
Proof.
  apply (news_failure_is_isolated configured request news_down ∅
           ["rust"; "wasm"] ["rust"; "wasm"] "socket hang up" three_posts).
  - vm_compute. mem_solve.
  - vm_compute. mem_solve.
  - discriminate.
Defined.

(** What the history records for the forked stage is what the service
    answered. *)
Lemma recorded_fork_outcomes {W : Type} `{Services W}
    (env : ProcessEnv) (request : Request) (w : W)
    (limits0 : gmap string RateLimitEntry) :
  (forall topics result,
      CalledFetchRelevantNews topics result ∈ history (run env request w limits0) ->
      exists w1, (fetchRelevantNews topics w1).1 = result)
  /\ (forall topics result,
        CalledSearchRedditPosts topics result ∈ history (run env request w limits0) ->
        exists w1, (searchRedditPosts topics w1).1 = result).
Proof.
  unfold run, start, POST, try_catch, bind, settled, await, send, close, when,
    checkRateLimit, request_json, modify, ret;
  cbn -[check truthy or_else String.append].
  repeat match goal with
         | |- context [fetchRelevantNews ?t ?w] =>
             destruct (fetchRelevantNews t w) as [[?|?] ?] eqn:?;
             cbn -[check truthy or_else String.append]
         | |- context [searchRedditPosts ?t ?w] =>
             destruct (searchRedditPosts t w) as [[?|?] ?] eqn:?;
             cbn -[check truthy or_else String.append]
         | |- _ => walk_step
         end;
    split; intros topics result Hin; mem_cases Hin; simplify_eq;
    match goal with
    | Heq : ?f ?t ?w1 = (?o, _) |- exists _, (?f ?t _).1 = ?o =>
        exists w1; by rewrite Heq
    end.
Qed.

(** With the adapters of this repository as services, and a topic list that
    is an array of strings as [TopicsJson] assumes, neither branch of the fork
    rejects.  (On a completion whose [topics] is another truthy value both
    adapters throw, outside their [try], and the substitution of an empty
    list is what keeps the run going.) *)
Lemma adapters_never_reject {World : Type} `{External World}
    (env : ProcessEnv) resolve locale_time (request : Request)
    (s : AdapterState World) (limits0 : gmap string RateLimitEntry) :
  (forall topics message,
      CalledFetchRelevantNews topics (Thrown message)
        ∉ history (@run _ (adapters env resolve locale_time) env request s limits0))
  /\ (forall topics message,
        CalledSearchRedditPosts topics (Thrown message)
          ∉ history (@run _ (adapters env resolve locale_time) env request s limits0)).
Proof.
  destruct (@recorded_fork_outcomes _ (adapters env resolve locale_time)
              env request s limits0) as [Hnews Hreddit].
  split; intros topics message Hin.
  - destruct (Hnews _ _ Hin) as [s1 Hs1]. simpl in Hs1.
    destruct (AdapterFacts.fetchRelevantNews_returns env topics s1) as (news & s' & Hrun).
    rewrite Hrun in Hs1. discriminate.
  - destruct (Hreddit _ _ Hin) as [s1 Hs1]. simpl in Hs1.
    destruct (AdapterFacts.searchRedditPosts_spec env topics s1) as (s' & Hrun & _).
    rewrite Hrun in Hs1. discriminate.
Qed.


End RouteClaims.

(** * The failure contract of the adapters, seen from the route *)

Module FailureContractClaims.
Import Adapters AdapterFacts Scenarios.




End FailureContractClaims.

(** * Further properties of the rate limiter *)

Module RateLimiterLaws.
Import RateLimiter RateLimiterFacts.

Lemma checks_within_window_results id maxR w times :
  forall (limits : gmap string RateLimitEntry) e,
    limits !! id = Some e ->
    Forall (fun t => t <= resetAt e) times ->
    (forall (i : nat) r,
        (checks times id maxR w limits).1 !! i = Some r ->
        allowed r = bool_decide (count e + Z.of_nat i < maxR)
        /\ result_resetAt r = resetAt e
        /\ remaining r = (if allowed r then maxR - (count e + Z.of_nat i + 1) else 0))
    /\ exists e', (checks times id maxR w limits).2 !! id = Some e'
                  /\ resetAt e' = resetAt e /\ count e <= count e'.
Proof.
  induction times as [|t times IH]; intros limits e Hl Hts; cbn [checks].
  - split; [intros i r Hi; by destruct i|]. exists e. simpl. split; [done|]. lia.
  - inversion Hts as [|? ? Ht Hrest]; subst.
    destruct (decide (count e >= maxR)) as [Hc|Hc].
    + rewrite (check_within_denied _ _ _ _ _ e) by done.
      destruct (IH limits e Hl Hrest) as [IHr IHs].
      destruct (checks times id maxR w limits) as [rs l'] eqn:E; simpl in *.
      split; [|done]. intros [|i] r Hi; simpl in Hi.
      * inversion Hi; subst; simpl.
        rewrite bool_decide_eq_false_2 by lia. done.
      * destruct (IHr i r Hi) as (Ha & Hr & Hrem). split; [|split; [done|]].
        -- rewrite Ha. rewrite !bool_decide_eq_false_2 by lia. done.
        -- rewrite Hrem, Ha. rewrite bool_decide_eq_false_2 by lia. done.
    + rewrite (check_within_allowed _ _ _ _ _ e) by (done || lia).
      set (e' := {| count := count e + 1; resetAt := resetAt e |}).
      destruct (IH (<[id := e']> limits) e') as [IHr IHs];
        [by rewrite lookup_insert_eq | done |].
      destruct (checks times id maxR w (<[id := e']> limits)) as [rs l'] eqn:E;
        simpl in *.
      split.
      * intros [|i] r Hi; simpl in Hi.
        -- inversion Hi; subst; simpl.
           rewrite bool_decide_eq_true_2 by lia. repeat split. lia.
        -- destruct (IHr i r Hi) as (Ha & Hr & Hrem). split; [|split; [done|]].
           ++ rewrite Ha. apply bool_decide_ext. lia.
           ++ rewrite Hrem. destruct (allowed r); [lia | done].
      * destruct IHs as (e'' & Hl'' & Hr'' & Hc''). exists e''.
        split; [done|]. split; [done|]. lia.
Qed.

(** X1: the fixed-window law for any [maxRequests] and any number of calls.
    When the first call opens the window and the later ones arrive no later
    than its reset instant, call number [i] (counted from 0) is allowed
    exactly when [i = 0] or [i < maxRequests]; every result carries the reset
    instant of the window; an allowed call reports [maxRequests - (i + 1)]
    remaining and a refused one reports 0.  In particular the opening call is
    let through even when [maxRequests <= 0]. *)
Theorem window_law (limits : gmap string RateLimitEntry) id maxR w t1 (later : list Z) :
  opens_window t1 id limits ->
  Forall (fun t => t <= t1 + w * 1000) later ->
  forall (i : nat) r,
    (checks (t1 :: later) id maxR w limits).1 !! i = Some r ->
    allowed r = bool_decide (i = 0%nat \/ Z.of_nat i < maxR)
    /\ result_resetAt r = t1 + w * 1000
    /\ remaining r = (if allowed r then maxR - (Z.of_nat i + 1) else 0).
Proof.
  intros Hopen Hin i r. cbn [checks].
  rewrite (check_fresh _ _ _ _ _ Hopen).
  set (e := {| count := 1; resetAt := t1 + w * 1000 |}).
  destruct (checks_within_window_results id maxR w later (<[id := e]> limits) e)
    as [Hres _]; [by rewrite lookup_insert_eq | done |].
  destruct (checks later id maxR w (<[id := e]> limits)) as [rs l'] eqn:E; simpl in *.
  destruct i as [|i]; simpl; intros Hi.
  - inversion Hi; subst. cbn [allowed result_resetAt remaining].
    split; [first [reflexivity | symmetry; apply bool_decide_eq_true_2; by left]|].
    split; [done | lia].
  - destruct (Hres i r Hi) as (Ha & Hr & Hrem). split; [|split; [done|]].
    + rewrite Ha. apply bool_decide_ext. subst e. cbn [count]. lia.
    + rewrite Hrem. subst e. cbn [count]. destruct (allowed r); [lia | done].
Qed.

(** Limit 2: the third call of the window (number 2) is refused. *)
Lemma window_law_witness :
  allowed {| allowed := false; remaining := 0; result_resetAt := 61000 |}
    = bool_decide (2%nat = 0%nat \/ Z.of_nat 2 < 2)
  /\ result_resetAt {| allowed := false; remaining := 0; result_resetAt := 61000 |}
     = 1000 + 60 * 1000
  /\ remaining {| allowed := false; remaining := 0; result_resetAt := 61000 |}
     = (if allowed {| allowed := false; remaining := 0; result_resetAt := 61000 |}
        then 2 - (Z.of_nat 2 + 1) else 0).
Proof.
  apply (window_law ∅ "203.0.113.7" 2 60 1000 [1001; 1002; 61000]).
  - exact I.
  - repeat constructor; lia.
  - reflexivity.
Defined.

Lemma check_other_identifier now id id' maxR w (limits : gmap string RateLimitEntry) :
  id <> id' -> (check now id maxR w limits).2 !! id' = limits !! id'.
Proof.
  intros Hne. unfold check. destruct (limits !! id) as [e|]; simpl.
  - repeat case_bool_decide; simpl; by rewrite ?lookup_insert_ne.
  - by rewrite lookup_insert_ne.
Qed.

Lemma check_depends_on_own_entry now id maxR w
    (limits limits' : gmap string RateLimitEntry) :
  limits !! id = limits' !! id ->
  (check now id maxR w limits).1 = (check now id maxR w limits').1
  /\ (check now id maxR w limits).2 !! id = (check now id maxR w limits').2 !! id.
Proof.
  intros Heq. unfold check. rewrite <- Heq.
  destruct (limits !! id) as [e|] eqn:E; simpl.
  - repeat case_bool_decide; simpl; (split; [done|]);
      rewrite ?lookup_insert_eq; congruence.
  - by rewrite !lookup_insert_eq.
Qed.

(** X2: identifiers are isolated.  A [check] for one identifier leaves the
    window of every other identifier as it was, so the answer a later [check]
    gives for another identifier is the same as without the first call. *)
Theorem identifiers_are_isolated now id maxR w now' id' maxR' w'
    (limits : gmap string RateLimitEntry) :
  id <> id' ->
  (check now id maxR w limits).2 !! id' = limits !! id'
  /\ (check now' id' maxR' w' (check now id maxR w limits).2).1
     = (check now' id' maxR' w' limits).1.
Proof.
  intros Hne. split; [by apply check_other_identifier|].
  apply check_depends_on_own_entry. by apply check_other_identifier.
Qed.

Lemma identifiers_are_isolated_witness :
  (check 5000 "channel:UC1" 5 300
     (check 1000 "203.0.113.7" 10 60 exhausted_window).2).1
  = (check 5000 "channel:UC1" 5 300 exhausted_window).1.
Proof.
  apply (identifiers_are_isolated 1000 "203.0.113.7" 10 60 5000 "channel:UC1" 5 300
           exhausted_window).
  discriminate.
Defined.

Lemma lookup_cleanup now id (limits : gmap string RateLimitEntry) :
  cleanup now limits !! id
  = match limits !! id with
    | Some e => if bool_decide (now > resetAt e) then None else Some e
    | None => None
    end.
Proof.
  unfold cleanup. rewrite map_lookup_filter.
  destruct (limits !! id) as [e|]; simpl; [|done].
  case_bool_decide as Hexp.
  - rewrite option_guard_False; [done | tauto].
  - rewrite option_guard_True; [done | tauto].
Qed.

(** X3: the periodic sweep is invisible to callers.  [cleanup] at instant
    [now] keeps exactly the windows that have not passed ([now <= resetAt]),
    and a [check] at the same or a later instant answers the same, and stores
    the same window for that identifier, whether or not the sweep has run. *)
Theorem cleanup_is_transparent now now' id maxR w (limits : gmap string RateLimitEntry) :
  now <= now' ->
  (forall e, cleanup now limits !! id = Some e
             <-> limits !! id = Some e /\ now <= resetAt e)
  /\ (check now' id maxR w (cleanup now limits)).1 = (check now' id maxR w limits).1
  /\ (check now' id maxR w (cleanup now limits)).2 !! id
     = (check now' id maxR w limits).2 !! id.
Proof.
  intros Hle. pose proof (lookup_cleanup now id limits) as Hlook. split.
  - intros e. rewrite Hlook.
    destruct (limits !! id) as [e0|]; [|split; [done | by intros [? _]]].
    case_bool_decide; split; intros Hx; simplify_eq.
    + destruct Hx as [? ?]. simplify_eq. lia.
    + split; [done | lia].
    + by destruct Hx as [-> _].
  - destruct (limits !! id) as [e|] eqn:El.
    + case_bool_decide as Hexp.
      * rewrite (check_fresh now' id maxR w (cleanup now limits))
          by (unfold opens_window; by rewrite Hlook).
        rewrite (check_fresh now' id maxR w limits)
          by (unfold opens_window; rewrite El; lia).
        simpl. by rewrite !lookup_insert_eq.
      * apply check_depends_on_own_entry. by rewrite Hlook, El.
    + apply check_depends_on_own_entry. by rewrite Hlook, El.
Qed.

Lemma cleanup_is_transparent_witness :
  (check 1700000090000 "203.0.113.7" 10 60 (cleanup 1700000070000 exhausted_window)).1
  = (check 1700000090000 "203.0.113.7" 10 60 exhausted_window).1.
Proof.
  apply (cleanup_is_transparent 1700000070000 1700000090000 "203.0.113.7" 10 60
           exhausted_window).
  lia.
Defined.

Lemma check_counts_positive now id maxR w (limits : gmap string RateLimitEntry) :
  counts_positive limits -> counts_positive (check now id maxR w limits).2.
Proof.
  intros Hinv id' e'. unfold check.
  destruct (limits !! id) as [e|] eqn:El; simpl.
  - repeat case_bool_decide; simpl;
      try (destruct (decide (id = id')) as [->|Hne];
           [rewrite lookup_insert_eq; intros [= <-]; simpl; specialize (Hinv _ _ El); lia
           |rewrite lookup_insert_ne by done; apply Hinv]).
    apply Hinv.
  - destruct (decide (id = id')) as [->|Hne].
    + rewrite lookup_insert_eq. intros [= <-]. simpl. lia.
    + rewrite lookup_insert_ne by done. apply Hinv.
Qed.

(** X4: counts stay between 1 and the limit.  When every stored window has
    counted at least one request, the same holds after [check] and after
    [cleanup]; and for [maxRequests >= 1], when the window stored for the
    identifier has not counted more than [maxRequests], the answer reports
    [0 <= remaining <= maxRequests - 1], reports [remaining = 0] when it
    refuses, and the window stored afterwards still counts at most
    [maxRequests]. *)
Theorem counts_stay_in_range now id maxR w (limits : gmap string RateLimitEntry) :
  counts_positive limits ->
  1 <= maxR ->
  (forall e, limits !! id = Some e -> count e <= maxR) ->
  counts_positive (check now id maxR w limits).2
  /\ counts_positive (cleanup now limits)
  /\ 0 <= remaining (check now id maxR w limits).1 <= maxR - 1
  /\ (allowed (check now id maxR w limits).1 = false ->
      remaining (check now id maxR w limits).1 = 0)
  /\ (exists e', (check now id maxR w limits).2 !! id = Some e'
                 /\ 1 <= count e' <= maxR).
Proof.
  intros Hinv Hmax Hcap.
  split; [by apply check_counts_positive|].
  split.
  { intros id' e'. rewrite lookup_cleanup.
    destruct (limits !! id') as [e0|] eqn:E0; [|done].
    case_bool_decide; [done|]. intros [= <-]. by apply (Hinv id'). }
  unfold check. destruct (limits !! id) as [e|] eqn:El; simpl.
  - specialize (Hinv _ _ El). specialize (Hcap _ eq_refl).
    repeat case_bool_decide; simpl; rewrite ?lookup_insert_eq;
      (split; [lia|]); (split; [done|]); eexists; (split; [done|]); simpl; lia.
  - rewrite lookup_insert_eq. split; [lia|]. split; [done|].
    eexists. split; [done|]. simpl. lia.
Qed.

Lemma counts_stay_in_range_witness :
  0 <= remaining (check 1700000000000 "203.0.113.7" 10 60 exhausted_window).1 <= 10 - 1.
Proof.
  refine (proj1 (proj2 (proj2
            (counts_stay_in_range 1700000000000 "203.0.113.7" 10 60 exhausted_window
               _ _ _)))).
  - intros id e. unfold exhausted_window.
    destruct (decide (id = "203.0.113.7")) as [->|Hne].
    + rewrite lookup_singleton_eq. intros [= <-]. simpl. lia.
    + rewrite lookup_singleton_ne by done. discriminate.
  - lia.
  - intros e. unfold exhausted_window. rewrite lookup_singleton_eq.
    intros [= <-]. simpl. lia.
Defined.

Lemma checks_app a b id maxR w (limits : gmap string RateLimitEntry) :
  checks (a ++ b) id maxR w limits
  = ((checks a id maxR w limits).1
       ++ (checks b id maxR w (checks a id maxR w limits).2).1,
     (checks b id maxR w (checks a id maxR w limits).2).2).
Proof.
  revert limits. induction a as [|t a IH]; intros limits; simpl.
  - by destruct (checks b id maxR w limits).
  - destruct (check t id maxR w limits) as [r l1]. rewrite IH.
    destruct (checks a id maxR w l1) as [ra la]. simpl.
    by destruct (checks b id maxR w la).
Qed.

Lemma checks_length times id maxR w :
  forall limits : gmap string RateLimitEntry,
    length (checks times id maxR w limits).1 = length times.
Proof.
  induction times as [|t times IH]; intros limits; cbn [checks]; [done|].
  destruct (check t id maxR w limits) as [r l1]. specialize (IH l1).
  destruct (checks times id maxR w l1) as [rs l2]. simpl in *. by rewrite IH.
Qed.

Lemma window_all_allowed (limits : gmap string RateLimitEntry) id maxR w t1 later :
  opens_window t1 id limits ->
  Forall (fun t => t <= t1 + w * 1000) later ->
  Z.of_nat (length later) < maxR ->
  Forall (fun r => allowed r = true) (checks (t1 :: later) id maxR w limits).1
  /\ exists e', (checks (t1 :: later) id maxR w limits).2 !! id = Some e'
                /\ resetAt e' = t1 + w * 1000.
Proof.
  intros Hopen Hin Hlen. cbn [checks].
  rewrite (check_fresh _ _ _ _ _ Hopen).
  set (e := {| count := 1; resetAt := t1 + w * 1000 |}).
  destruct (checks_within_window_results id maxR w later (<[id := e]> limits) e)
    as [Hres (e' & He' & Hr' & _)]; [by rewrite lookup_insert_eq | done |].
  pose proof (checks_length later id maxR w (<[id := e]> limits)) as Hl.
  destruct (checks later id maxR w (<[id := e]> limits)) as [rs l'] eqn:E; simpl in *.
  split; [|by exists e'].
  constructor; [done|]. apply Forall_lookup. intros i r Hi.
  destruct (Hres i r Hi) as (Ha & _). rewrite Ha. apply bool_decide_eq_true_2.
  apply lookup_lt_Some in Hi. lia.
Qed.

(** X5: the burst a fixed window admits.  [maxRequests] calls inside one
    window followed by [maxRequests] calls that start right after its reset
    instant are all allowed: the second group opens a window of its own, so
    up to twice the limit passes in an arbitrarily short interval around a
    reset instant. *)
Theorem burst_across_reset (limits : gmap string RateLimitEntry) id maxR w
    t1 later1 t2 later2 :
  opens_window t1 id limits ->
  Forall (fun t => t <= t1 + w * 1000) later1 ->
  Z.of_nat (length later1) < maxR ->
  t2 > t1 + w * 1000 ->
  Forall (fun t => t <= t2 + w * 1000) later2 ->
  Z.of_nat (length later2) < maxR ->
  Forall (fun r => allowed r = true)
    (checks ((t1 :: later1) ++ (t2 :: later2)) id maxR w limits).1.
Proof.
  intros Hopen Hin1 Hlen1 Ht2 Hin2 Hlen2. rewrite checks_app. cbn [fst].
  destruct (window_all_allowed limits id maxR w t1 later1 Hopen Hin1 Hlen1)
    as [Hall1 (e' & He' & Hr')].
  apply Forall_app. split; [done|].
  apply window_all_allowed; [|done|done].
  unfold opens_window. rewrite He'. lia.
Qed.

Lemma burst_across_reset_witness :
  Forall (fun r => allowed r = true)
    (checks ((1000 :: [61000]) ++ (61001 :: [61002])) "203.0.113.7" 2 60 ∅).1.
Proof.
  apply (burst_across_reset ∅ "203.0.113.7" 2 60 1000 [61000] 61001 [61002]).
  - exact I.
  - repeat constructor. lia.
  - simpl. lia.
  - lia.
  - repeat constructor. lia.
  - simpl. lia.
Defined.

End RateLimiterLaws.

(** * Further properties of the in-memory cache *)

Module SimpleCacheLaws.
Import SimpleCache SimpleCacheClaims.

Section Laws.
Context {T : Type}.
Implicit Types (cache : gmap string (CacheEntry T)) (k : string) (v : T).

Lemma lookup_cache_cleanup now k cache :
  cleanup now cache !! k
  = match cache !! k with
    | Some e => if bool_decide (now > expiresAt e) then None else Some e
    | None => None
    end.
Proof.
  unfold cleanup. rewrite map_lookup_filter.
  destruct (cache !! k) as [e|]; simpl; [|done].
  case_bool_decide as Hexp.
  - rewrite option_guard_False; [done | tauto].
  - rewrite option_guard_True; [done | tauto].
Qed.

Lemma get_depends_on_own_entry now k cache cache' :
  cache !! k = cache' !! k ->
  (get now k cache).1 = (get now k cache').1
  /\ (get now k cache).2 !! k = (get now k cache').2 !! k.
Proof.
  intros Heq. unfold get. rewrite <- Heq.
  destruct (cache !! k) as [e|] eqn:E; simpl; [|split; congruence].
  case_bool_decide; simpl; (split; [done|]); rewrite ?lookup_delete_eq; congruence.
Qed.

End Laws.

(** X6: the periodic sweep of the cache is invisible to readers.  [cleanup]
    at instant [now] keeps exactly the entries whose expiry has not passed,
    and a [get] at the same or a later instant returns the same value, and
    leaves the same binding for that key, whether or not the sweep has run. *)
Theorem cache_cleanup_is_transparent {T : Type} now now' k
    (cache : gmap string (CacheEntry T)) :
  now <= now' ->
  (forall e, cleanup now cache !! k = Some e
             <-> cache !! k = Some e /\ now <= expiresAt e)
  /\ (get now' k (cleanup now cache)).1 = (get now' k cache).1
  /\ (get now' k (cleanup now cache)).2 !! k = (get now' k cache).2 !! k.
Proof.
  intros Hle. pose proof (lookup_cache_cleanup now k cache) as Hlook. split.
  - intros e. rewrite Hlook.
    destruct (cache !! k) as [e0|]; [|split; [done | by intros [? _]]].
    case_bool_decide; split; intros Hx; simplify_eq.
    + destruct Hx as [? ?]. simplify_eq. lia.
    + split; [done | lia].
    + by destruct Hx as [-> _].
  - destruct (cache !! k) as [e|] eqn:El.
    + case_bool_decide as Hexp.
      * rewrite (get_absent (cleanup now cache) k now' Hlook).
        rewrite (get_expired cache k e now') by (done || lia).
        simpl. by rewrite Hlook, lookup_delete_eq.
      * apply get_depends_on_own_entry. by rewrite Hlook, El.
    + apply get_depends_on_own_entry. by rewrite Hlook, El.
Qed.

Lemma cache_cleanup_is_transparent_witness :
  (get 9000 "topics:v1" (cleanup 8000 (set 1000 "topics:v1" 7%nat 5 ∅))).1
  = (get 9000 "topics:v1" (set 1000 "topics:v1" 7%nat 5 ∅)).1.
Proof.
  apply (cache_cleanup_is_transparent 8000 9000 "topics:v1"
           (set 1000 "topics:v1" 7%nat 5 ∅)).
  lia.
Defined.

(** X7: [set] overwrites unconditionally and resets the TTL.  Two [set]s on
    one key leave the store as the second alone would; a later [get] returns
    the second value while the second TTL lasts, and returns absent after it
    even when the TTL given first would still be running. *)
Theorem set_overwrites {T : Type} (cache : gmap string (CacheEntry T))
    (k : string) (v1 v2 : T) (ttl1 ttl2 now1 now2 : Z) :
  set now2 k v2 ttl2 (set now1 k v1 ttl1 cache) = set now2 k v2 ttl2 cache
  /\ (forall now', now' <= now2 + ttl2 * 1000 ->
        (get now' k (set now2 k v2 ttl2 (set now1 k v1 ttl1 cache))).1 = Some v2)
  /\ (forall now', now' > now2 + ttl2 * 1000 ->
        (get now' k (set now2 k v2 ttl2 (set now1 k v1 ttl1 cache))).1 = None).
Proof.
  assert (Hset : set now2 k v2 ttl2 (set now1 k v1 ttl1 cache) = set now2 k v2 ttl2 cache)
    by (unfold set; apply insert_insert_eq).
  split; [exact Hset|]. rewrite Hset. split; intros now' Hnow.
  - rewrite (get_live _ k {| data := v2; expiresAt := now2 + ttl2 * 1000 |});
      [done | apply lookup_insert_eq | done].
  - rewrite (get_expired _ k {| data := v2; expiresAt := now2 + ttl2 * 1000 |});
      [done | apply lookup_insert_eq | done].
Qed.

(** X8: [clearCache] treats a falsy key as no key.  Called without a key or
    with the empty string it empties the whole store, so an entry kept under
    the empty key cannot be removed alone; called with a non-empty key it
    removes that entry and leaves every other entry as it was. *)
Theorem clearCache_by_key {T : Type} (cache : gmap string (CacheEntry T)) :
  clearCache None cache = ∅
  /\ clearCache (Some EmptyString) cache = ∅
  /\ (forall k, k <> EmptyString ->
        clearCache (Some k) cache !! k = None
        /\ forall k', k' <> k -> clearCache (Some k) cache !! k' = cache !! k').
Proof.
  split; [reflexivity|]. split; [reflexivity|].
  intros k Hk. unfold clearCache, truthy.
  destruct (String.eqb_spec k EmptyString) as [->|_]; [done|]. simpl.
  unfold delete. split; [apply lookup_delete_eq|].
  intros k' Hne. by apply lookup_delete_ne.
Qed.

End SimpleCacheLaws.

(** * Further properties of pooling *)

Module PoolingLaws.
Import PoolingFacts.

Lemma keep_first_NoDup_id (pool : list RedditPost) :
  forall seen : list string,
    NoDup (map post_url pool) ->
    (forall p, p ∈ pool -> post_url p ∉ seen) ->
    keep_first seen pool = pool.
Proof.
  induction pool as [|p pool IH]; intros seen Hnd Hseen; simpl; [done|].
  inversion Hnd as [|? ? Hnin Hnd']; subst.
  rewrite bool_decide_eq_false_2 by (apply Hseen; constructor).
  f_equal. apply IH; [done|].
  intros q Hq. rewrite not_elem_of_cons. split.
  - intros Heq. apply Hnin. rewrite <- Heq. apply list_elem_of_fmap. by exists q.
  - apply Hseen. by constructor.
Qed.

Lemma sort_sorted_id (l : list RedditPost) :
  StronglySorted score_ge l -> sort by_score_desc l = l.
Proof.
  induction 1 as [|x l Hs IH Hall]; simpl; [done|].
  rewrite IH. destruct l as [|y l]; simpl; [done|].
  inversion Hall as [|? ? Hxy _]; subst. unfold score_ge in Hxy.
  unfold by_score_desc at 1. by rewrite bool_decide_eq_false_2 by lia.
Qed.

Lemma sortedPosts_NoDup (pool : list RedditPost) :
  NoDup (map post_url (sortedPosts pool)).
Proof.
  unfold sortedPosts. rewrite uniquePosts_keep_first.
  rewrite <- List.firstn_map. eapply sublist_NoDup; [|apply sublist_take].
  rewrite (sort_perm by_score_desc (keep_first [] pool)). apply keep_first_NoDup.
Qed.

(** X9: post-processing is idempotent.  De-duplicating, sorting and
    truncating a list that already went through [sortedPosts] changes
    nothing. *)
Theorem sortedPosts_idempotent (pool : list RedditPost) :
  sortedPosts (sortedPosts pool) = sortedPosts pool.
Proof.
  pose proof (sortedPosts_NoDup pool) as Hnd.
  assert (Hs : StronglySorted score_ge (sortedPosts pool)).
  { unfold sortedPosts. apply take_sorted, sort_sorted. }
  assert (Hlen : (length (sortedPosts pool) <= 15)%nat).
  { unfold sortedPosts. rewrite length_take. lia. }
  unfold sortedPosts at 1. rewrite uniquePosts_keep_first.
  rewrite keep_first_NoDup_id; [|done|intros p _; apply not_elem_of_nil].
  rewrite sort_sorted_id by done. by apply take_ge.
Qed.

Lemma filter_sort_insert (k : Z) (x : RedditPost) (l : list RedditPost) :
  List.filter (fun p => bool_decide (post_score p = k)) (sort_insert by_score_desc x l)
  = List.filter (fun p => bool_decide (post_score p = k)) (x :: l).
Proof.
  induction l as [|y l IH]; simpl; [done|].
  unfold by_score_desc at 1. case_bool_decide as Hc; [|done].
  simpl. rewrite IH. simpl.
  repeat case_bool_decide; try done. lia.
Qed.

(** X10: the sort is stable.  Sorting by score keeps the posts of any one
    score in the relative order they had before, so among posts that tie the
    first pooled comes first. *)
Theorem sort_is_stable (k : Z) (l : list RedditPost) :
  List.filter (fun p => bool_decide (post_score p = k)) (sort by_score_desc l)
  = List.filter (fun p => bool_decide (post_score p = k)) l.
Proof.
  induction l as [|x l IH]; simpl; [done|].
  rewrite filter_sort_insert. simpl. by rewrite IH.
Qed.

End PoolingLaws.

(** * Further properties of the adapters *)

Module AdapterLaws.
Import Adapters AdapterFacts PoolingFacts Scenarios MoreScenarios.

Lemma truthy_nonempty (a : option string) :
  truthy a = true -> exists t, a = Some t /\ t <> EmptyString.
Proof.
  destruct a as [t|]; simpl; [|done]. intros Ht. exists t. split; [done|].
  intros ->. done.
Qed.

Lemma or_else_nonempty (a : option string) (b : string) :
  b <> EmptyString -> or_else a b <> EmptyString.
Proof.
  intros Hb. unfold or_else. destruct (truthy a) eqn:Ha; [|done].
  destruct (truthy_nonempty a Ha) as (t & -> & Ht). done.
Qed.

Lemma child_url_on_host (data : RawChild) :
  exists rest, child_url data = "https://reddit.com/" +:+ rest.
Proof.
  unfold child_url. destruct (truthy (child_permalink data)) eqn:Hp.
  - destruct (truthy_nonempty _ Hp) as (permalink & -> & Hne). simpl default.
    destruct (String.prefix "/" permalink) eqn:Hslash.
    + apply String.prefix_correct in Hslash.
      destruct permalink as [|c rest]; [done|]. simpl in Hslash.
      destruct rest; injection Hslash as ->; by eexists.
    + by eexists.
  - by eexists.
Qed.

Lemma child_to_post_well_formed (data : RawChild) (p : RedditPost) :
  child_to_post data = Some p -> well_formed_post p.
Proof.
  unfold child_to_post. destruct (truthy (child_title data)) eqn:Ht; [|done].
  simpl. intros [= <-]. unfold well_formed_post. simpl.
  destruct (truthy_nonempty _ Ht) as (t & -> & Hne).
  split; [done|]. split; [by apply or_else_nonempty | apply child_url_on_host].
Qed.

Lemma posts_of_well_formed response : Forall well_formed_post (posts_of response).
Proof.
  destruct response as [[children|]|m]; simpl; try constructor.
  apply Forall_forall. intros p Hp. unfold children_to_posts in Hp.
  apply list_elem_of_omap in Hp as (data & _ & Hd).
  by eapply child_to_post_well_formed.
Qed.

Section Laws.
Context {World : Type} `{External World}.
Implicit Types (s : AdapterState World) (env : ProcessEnv).

Lemma issued_refl n s : issued_at_most n s s.
Proof. split; [done|]. exists []. rewrite app_nil_r. split; [done | simpl; lia]. Qed.

Lemma issued_trans n m s1 s2 s3 :
  issued_at_most n s1 s2 -> issued_at_most m s2 s3 -> issued_at_most (n + m) s1 s3.
Proof.
  intros [Hm1 (n1 & Hc1 & Hl1)] [Hm2 (n2 & Hc2 & Hl2)]. split; [congruence|].
  exists (n1 ++ n2). rewrite Hc2, Hc1, app_assoc. split; [done|].
  rewrite length_app. lia.
Qed.

Lemma issued_weaken n m s s' :
  (n <= m)%nat -> issued_at_most n s s' -> issued_at_most m s s'.
Proof.
  intros Hle [Hm (new & Hc & Hl)]. split; [done|]. exists new. split; [done | lia].
Qed.

Lemma getRedditAccessToken_budget env s :
  exists t s', getRedditAccessToken env s = (Returned t, s') /\ issued_at_most 3 s s'.
Proof.
  unfold getRedditAccessToken.
  destruct (negb (truthy (REDDIT_CLIENT_ID env)) || negb (truthy (REDDIT_CLIENT_SECRET env))).
  { eexists _, _. split; [reflexivity | apply issued_refl]. }
  unfold getCached_token, setCached_token. run_monad.
  destruct (kv_get_token "reddit:access_token" (world s)) as [[[c|]|m] w1]; simpl;
    try (destruct (date_now w1) as [now w2]; simpl; case_bool_decide; simpl);
    try (eexists _, _; split; [reflexivity|]; split; simpl; [done|];
         eexists; split; [reflexivity | simpl; lia]);
    match goal with
    | |- context [axios_post_access_token ?a ?b ?c ?w] =>
        destruct (axios_post_access_token a b c w) as [[r|m'] w3]; simpl
    end;
    try (destruct (date_now w3) as [now' w4]; simpl;
         match goal with
         | |- context [kv_set_token ?a ?b ?c ?w] =>
             destruct (kv_set_token a b c w) as [[[]|m''] w5]; simpl
         end);
    eexists _, _; (split; [reflexivity|]); split; simpl; try done;
    rewrite <- ?app_assoc; eexists; (split; [reflexivity | simpl; lia]).
Qed.

Lemma searchRedditWithOAuth_budget env topic s :
  exists posts s',
    searchRedditWithOAuth env topic s = (Returned posts, s')
    /\ Forall well_formed_post posts /\ issued_at_most 4 s s'.
Proof.
  unfold searchRedditWithOAuth. unfold bind at 1.
  destruct (getRedditAccessToken_budget env s) as (t & s1 & -> & Hext).
  destruct (negb (truthy t)).
  { eexists _, _. split; [reflexivity|]. split; [constructor|].
    by apply (issued_weaken 3 4); [lia|]. }
  run_monad.
  pose proof (posts_of_well_formed
                (axios_get_oauth_search topic (default EmptyString t)
                   (or_else (REDDIT_USER_AGENT env) default_user_agent) (world s1)).1) as Hwf.
  destruct (axios_get_oauth_search _ _ _ (world s1)) as [[[children|]|m] w]; simpl in *;
    eexists _, _; (split; [reflexivity|]); (split; [first [exact Hwf | constructor]|]);
    apply (issued_trans 3 1 s s1); [done| |done| |done|];
    (split; [done|]); eexists; (split; [reflexivity | simpl; lia]).
Qed.

Lemma search_topic_budget env h allPosts topic s :
  Forall well_formed_post allPosts ->
  exists pooled s',
    search_topic env h allPosts topic s = (Returned pooled, s')
    /\ Forall well_formed_post pooled /\ issued_at_most 5 s s'.
Proof.
  intros Hall. destruct h.
  - destruct (searchRedditWithOAuth_budget env topic s) as (posts & s1 & Hoauth & Hwf & Hb).
    rewrite (search_topic_oauth _ _ _ _ _ _ Hoauth). case_bool_decide.
    + eexists _, _. split; [reflexivity|]. split.
      * apply Forall_app. split; [done | apply posts_of_well_formed].
      * apply (issued_trans 4 1 s s1); [done|]. split; [done|].
        eexists. split; [reflexivity | simpl; lia].
    + eexists _, _. split; [reflexivity|]. split.
      * apply Forall_app. by split.
      * by apply (issued_weaken 4 5); [lia|].
  - rewrite search_topic_public. eexists _, _. split; [reflexivity|]. split.
    + apply Forall_app. split; [done | apply posts_of_well_formed].
    + apply (issued_weaken 1 5); [lia|]. split; [done|].
      eexists. split; [reflexivity | simpl; lia].
Qed.

Lemma search_topics_budget env h topics :
  forall allPosts s,
    Forall well_formed_post allPosts ->
    exists pooled s',
      search_topics env h allPosts topics s = (Returned pooled, s')
      /\ Forall well_formed_post pooled
      /\ issued_at_most (5 * length topics) s s'.
Proof.
  induction topics as [|topic rest IH]; intros allPosts s Hall; simpl.
  - exists allPosts, s. split; [reflexivity|]. split; [done | apply issued_refl].
  - unfold bind at 1.
    destruct (search_topic_budget env h allPosts topic s Hall)
      as (p1 & s1 & -> & Hwf1 & Hb1).
    destruct (IH p1 s1 Hwf1) as (p2 & s2 & -> & Hwf2 & Hb2).
    exists p2, s2. split; [reflexivity|]. split; [done|].
    apply (issued_weaken (5 + 5 * length rest)); [lia|].
    by apply (issued_trans 5 (5 * length rest) s s1 s2).
Qed.

Lemma sortedPosts_subset (pool : list RedditPost) (p : RedditPost) :
  p ∈ sortedPosts pool -> p ∈ pool.
Proof.
  unfold sortedPosts. rewrite uniquePosts_keep_first. intros Hp.
  apply (subseteq_take 15) in Hp.
  rewrite (sort_perm by_score_desc (keep_first [] pool)) in Hp.
  apply keep_first_sound in Hp as [_ Hfirst]. unfold first_with_url in Hfirst.
  apply List.find_some in Hfirst as [Hin _]. by apply list_elem_of_In.
Qed.

End Laws.

(** X11: when the news fetch leaves the process.  With no topics it returns
    the empty list without touching anything; without a configured API key it
    returns the empty list and issues no request; otherwise it issues exactly
    one request, whose query joins the first three topics with [" OR "], and
    returns one article per article received. *)
Theorem news_fetch_requests {World : Type} `{External World}
    (env : ProcessEnv) (topics : list string) (s : AdapterState World) :
  (topics = [] -> fetchRelevantNews env topics s = (Returned [], s))
  /\ (truthy (NEWS_API_KEY env) = false ->
      (fetchRelevantNews env topics s).1 = Returned []
      /\ calls (fetchRelevantNews env topics s).2 = calls s)
  /\ (topics <> [] -> truthy (NEWS_API_KEY env) = true ->
      calls (fetchRelevantNews env topics s).2
        = calls s ++ [NewsSearch (String.concat " OR " (take 3 topics))]
      /\ forall articles w,
           (axios_get_news (String.concat " OR " (take 3 topics))
              (date_today (world s)).1 (default EmptyString (NEWS_API_KEY env))
              (date_today (world s)).2) = (Returned (Some articles), w) ->
           exists news, (fetchRelevantNews env topics s).1 = Returned news
                        /\ map news_title news = map article_title articles
                        /\ map news_url news = map article_url articles).
Proof.
  rewrite fetchRelevantNews_spec. split; [|split].
  - intros ->. reflexivity.
  - intros Hkey. case_bool_decide; [done|]. cbv zeta.
    destruct (date_today (world s)) as [today w1]. by rewrite Hkey.
  - intros Hne Hkey. rewrite bool_decide_eq_false_2 by (by destruct topics).
    cbv zeta. destruct (date_today (world s)) as [today w1]. rewrite Hkey. simpl.
    destruct (axios_get_news _ _ _ w1) as [response w2] eqn:E. simpl.
    split; [done|]. intros articles w [= -> ->].
    eexists. split; [reflexivity|]. rewrite !map_map. done.
Qed.

(** X12: what the forum search returns is well formed.  Every post returned
    by [searchRedditPosts] has a non-empty title, a non-empty subreddit and a
    URL that starts with ["https://reddit.com/"], and is one of the posts
    pooled by the loop. *)
Theorem forum_posts_are_well_formed {World : Type} `{External World}
    (env : ProcessEnv) (topics : list string) (s : AdapterState World) :
  exists posts s',
    searchRedditPosts env topics s = (Returned posts, s')
    /\ Forall well_formed_post posts
    /\ forall p, p ∈ posts -> p ∈ pooledPosts env topics s.
Proof.
  destruct (searchRedditPosts_spec env topics s) as (s' & Hrun & _).
  eexists _, s'. split; [exact Hrun|].
  assert (Hpool : Forall well_formed_post (pooledPosts env topics s)).
  { unfold pooledPosts.
    destruct (search_topics_budget env (hasOAuth env) (take 3 topics) [] s)
      as (pooled & s1 & -> & Hwf & _); [constructor | done]. }
  split; [|apply sortedPosts_subset].
  apply Forall_forall. intros p Hp. apply sortedPosts_subset in Hp.
  rewrite Forall_forall in Hpool. by apply Hpool.
Qed.

(** X13: the request budget of the forum search.  Whatever the providers
    answer, one call of [searchRedditPosts] issues at most five outbound calls
    for each of the first three topics (store read, credential exchange,
    store write, authenticated search, public search): at most fifteen in
    all, and none for an empty topic list; the in-memory cache is untouched. *)
Theorem forum_search_budget {World : Type} `{External World}
    (env : ProcessEnv) (topics : list string) (s : AdapterState World) :
  issued_at_most (5 * Nat.min 3 (length topics)) s (searchRedditPosts env topics s).2
  /\ issued_at_most 15 s (searchRedditPosts env topics s).2.
Proof.
  assert (Hb : issued_at_most (5 * Nat.min 3 (length topics)) s
                 (searchRedditPosts env topics s).2).
  { unfold searchRedditPosts. case_bool_decide as Hlen.
    - simpl. apply issued_refl.
    - unfold bind at 1.
      destruct (search_topics_budget env (hasOAuth env) (take 3 topics) [] s)
        as (pooled & s1 & -> & _ & Hb); [constructor|]. simpl.
      rewrite length_take in Hb. exact Hb. }
  split; [done|]. apply (issued_weaken (5 * Nat.min 3 (length topics))); [lia | done].
Qed.

(** X14: the two ways the catalog lookup returns.  On a store hit it returns
    the stored result after the store read alone, with no catalog request.
    When it returns after a miss (or a failing store read), it has issued, in
    this order, the channel request, the playlist request, the video request
    for a non-empty list of non-empty video ids, and one store write under the
    same key with a TTL of 3600 seconds; the channel name it returns is never
    empty. *)
Theorem catalog_lookup_paths {World : Type} `{External World}
    (channelId : string) (s : AdapterState World) :
  (forall hit,
      (kv_get_videos ("channel:videos:" +:+ channelId) (world s)).1 = Returned (Some hit) ->
      fetchChannelVideos channelId s =
        (Returned hit,
         {| world := (kv_get_videos ("channel:videos:" +:+ channelId) (world s)).2;
            calls := calls s ++ [KvGet ("channel:videos:" +:+ channelId)];
            memory := memory s |}))
  /\ (forall r s',
        (forall hit, (kv_get_videos ("channel:videos:" +:+ channelId) (world s)).1
                     <> Returned (Some hit)) ->
        fetchChannelVideos channelId s = (Returned r, s') ->
        result_channelName r <> EmptyString
        /\ exists playlistId ids,
             ids <> [] /\ Forall (fun id => id <> EmptyString) ids
             /\ calls s' = calls s ++
                  [ KvGet ("channel:videos:" +:+ channelId);
                    ChannelsList channelId;
                    PlaylistItemsList playlistId;
                    VideosList ids;
                    KvSetVideos ("channel:videos:" +:+ channelId) 3600 ]).
Proof.
  split.
  - intros hit Hhit. unfold fetchChannelVideos. cbv zeta.
    unfold bind at 1. rewrite getCached_videos_spec, Hhit. reflexivity.
  - intros r s' Hmiss. unfold fetchChannelVideos. cbv zeta.
    unfold bind at 1. rewrite getCached_videos_spec.
    rewrite (videos_cache_miss _ _ Hmiss).
    unfold setCached_videos. run_monad.
    match goal with
    | |- context [youtube_channels_list ?c ?w] =>
        destruct (youtube_channels_list c w) as [[cr|m] w1]; simpl; [|done]
    end.
    destruct (truthy (channel_uploads cr)) eqn:Hup; simpl; [|done].
    match goal with
    | |- context [youtube_playlistItems_list ?c ?w] =>
        destruct (youtube_playlistItems_list c w) as [[items|m] w2]; simpl; [|done]
    end.
    set (ids := match items with
                | Some l => omap (fun id : option string => if truthy id then id else None) l
                | None => []
                end).
    case_bool_decide as Hlen; simpl; [done|].
    match goal with
    | |- context [youtube_videos_list ?c ?w] =>
        destruct (youtube_videos_list c w) as [[vr|m] w3]; simpl; [|done]
    end.
    match goal with
    | |- context [kv_set_videos ?a ?b ?c ?w] =>
        destruct (kv_set_videos a b c w) as [[[]|m] w4]; simpl
    end;
      intros [= <- <-]; simpl;
      (split; [apply or_else_nonempty; done|]);
      exists (default EmptyString (channel_uploads cr)), ids;
      (split; [by destruct ids|]);
      (split; [|by rewrite <- !app_assoc]);
      apply Forall_forall; intros id Hid; subst ids;
      destruct items as [l|]; [|by inversion Hid| |by inversion Hid];
      apply list_elem_of_omap in Hid as (o & _ & Ho);
      destruct (truthy o) eqn:Ht; try done; subst o;
      destruct (truthy_nonempty _ Ht) as (t & [= ->] & Hne); done.
Qed.

Lemma catalog_lookup_paths_witness :
  result_channelName
    {| result_videos :=
         [ {| video_id := "dQw4w9WgXcQ"; video_title := "Rust 101";
              video_description := EmptyString; video_publishedAt := EmptyString;
              video_thumbnail := EmptyString;
              video_url := "https://www.youtube.com/watch?v=dQw4w9WgXcQ" |} ];
       result_channelName := "Unknown Channel" |} <> EmptyString
  /\ exists playlistId ids,
       ids <> [] /\ Forall (fun id => id <> EmptyString) ids
       /\ calls (fetchChannelVideos "UC1" (begin catalog_answers)).2
          = calls (begin catalog_answers) ++
              [ KvGet ("channel:videos:" +:+ "UC1");
                ChannelsList "UC1";
                PlaylistItemsList playlistId;
                VideosList ids;
                KvSetVideos ("channel:videos:" +:+ "UC1") 3600 ].
Proof.
  apply (proj2 (catalog_lookup_paths "UC1" (begin catalog_answers))).
  - intros hit. discriminate.
  - reflexivity.
Defined.

(** X15: topic analysis is memoized for 24 hours.  When [analyzeTopics]
    returns after a miss of the in-memory cache (no entry under the key of
    the video ids, or an entry whose expiry the clock has passed, which is
    evicted), it has issued exactly one completion request, and its result,
    whatever it is, is stored under that key with an expiry of exactly
    86400 seconds (86 400 000 ms) after the clock reading taken right after
    the completion request; and any later call for the same videos that finds
    this entry and reads a clock no later than that expiry returns the same
    result without any completion request and without changing the cache. *)
Theorem topic_analysis_is_memoized {World : Type} `{External World}
    (videos : list YouTubeVideo) (s : AdapterState World)
    (r : TopicAnalysis) (s1 : AdapterState World) (w0 : World) :
  let key := "topics:" +:+ String.concat "," (array_sort (map video_id videos)) in
  let prompt :=
    TopicsPrompt (String.concat newline (map video_title videos))
      (String.concat newline
         (map (fun v => String.substring 0 500 (video_description v)) videos)) in
  (memory s !! key = None /\ w0 = world s)
  \/ (exists e, memory s !! key = Some e
                /\ (date_now (world s)).1 > SimpleCache.expiresAt e
                /\ w0 = (date_now (world s)).2) ->
  analyzeTopics videos s = (Returned r, s1) ->
  let t := (date_now (openai_chat_completion prompt w0).2).1 in
  memory s1 !! key
    = Some {| SimpleCache.data := r; SimpleCache.expiresAt := t + 86400 * 1000 |}
  /\ calls s1 = calls s ++ [ChatCompletion prompt]
  /\ world s1 = (date_now (openai_chat_completion prompt w0).2).2
  /\ forall s2 : AdapterState World,
       memory s2 !! key
         = Some {| SimpleCache.data := r; SimpleCache.expiresAt := t + 86400 * 1000 |} ->
       (date_now (world s2)).1 <= t + 86400 * 1000 ->
       analyzeTopics videos s2 =
         (Returned r,
          {| world := (date_now (world s2)).2; calls := calls s2;
             memory := memory s2 |}).
Proof.
  intros key prompt Hmiss.
  assert (Hhit : forall (t : Z) (s2 : AdapterState World),
             memory s2 !! key
               = Some {| SimpleCache.data := r; SimpleCache.expiresAt := t |} ->
             (date_now (world s2)).1 <= t ->
             analyzeTopics videos s2 =
               (Returned r,
                {| world := (date_now (world s2)).2; calls := calls s2;
                   memory := memory s2 |})).
  { intros t s2 Hentry Hfresh. unfold analyzeTopics. cbv zeta. fold key.
    unfold memory_get. run_monad. rewrite Hentry.
    destruct (date_now (world s2)) as [now2 w3]. simpl in *.
    unfold SimpleCache.getCached, SimpleCache.get. rewrite Hentry. simpl.
    by rewrite bool_decide_eq_false_2 by lia. }
  unfold analyzeTopics at 1. cbv zeta. fold key. fold prompt.
  unfold memory_get, memory_set. run_monad.
  destruct Hmiss as [[Hnone ->] | (e & Hsome & Hexpired & ->)].
  - rewrite Hnone. simpl.
    destruct (openai_chat_completion prompt (world s)) as [[content|m] w1]; simpl; [|done].
    destruct (parse_topics content) as [response|m]; simpl; [|done].
    destruct (date_now w1) as [t w2]. simpl.
    intros [= <- <-]. simpl. unfold SimpleCache.setCached, SimpleCache.set.
    rewrite lookup_insert_eq. unfold CACHE_TTL_TOPIC_ANALYSIS.
    repeat apply conj; try done.
    intros s2. apply Hhit.
  - rewrite Hsome.
    destruct (date_now (world s)) as [now w'] eqn:Hclock. simpl in Hexpired. simpl.
    unfold SimpleCache.getCached, SimpleCache.get. rewrite Hsome.
    rewrite bool_decide_eq_true_2 by lia. simpl.
    destruct (openai_chat_completion prompt w') as [[content|m] w1]; simpl; [|done].
    destruct (parse_topics content) as [response|m]; simpl; [|done].
    destruct (date_now w1) as [t w2]. simpl.
    intros [= <- <-]. simpl. unfold SimpleCache.setCached, SimpleCache.set.
    rewrite lookup_insert_eq. unfold CACHE_TTL_TOPIC_ANALYSIS.
    repeat apply conj; try done.
    intros s2. apply Hhit.
Qed.

(** An entry that expired one millisecond ago is replaced: the completion
    (here without content) is requested once, and the empty analysis is
    stored until 24 hours after the clock reading. *)
Lemma topic_analysis_is_memoized_witness :
  memory (analyzeTopics [] expired_analysis).2 !! "topics:"
    = Some {| SimpleCache.data := {| topics := []; summary := EmptyString |};
              SimpleCache.expiresAt := 1700000000000 + 86400 * 1000 |}
  /\ calls (analyzeTopics [] expired_analysis).2
     = [ChatCompletion (TopicsPrompt EmptyString EmptyString)].
Proof.
  pose proof (topic_analysis_is_memoized [] expired_analysis
                {| topics := []; summary := EmptyString |}
                (analyzeTopics [] expired_analysis).2 catalog_answers) as Hmemo.
  cbv zeta in Hmemo.
  destruct Hmemo as (Hstored & Hcalls & _).
  - right. exists {| SimpleCache.data := {| topics := ["rust"]; summary := "old" |};
                     SimpleCache.expiresAt := 1699999999999 |}.
    split; [reflexivity|]. split; [simpl; lia | reflexivity].
  - reflexivity.
  - split; [exact Hstored | exact Hcalls].
Defined.

End AdapterLaws.

(** * Properties of channel resolution *)

Module YoutubeUrlLaws.
Import YoutubeUrl.

Lemma id_run_all_id_chars (s : string) : all_id_chars (id_run s) = true.
Proof.
  induction s as [|c s IH]; simpl; [done|].
  destruct (is_id_char c) eqn:Hc; simpl; [by rewrite Hc | done].
Qed.

Lemma append_cons (c : ascii) (s t : string) : String c s +:+ t = String c (s +:+ t).
Proof. reflexivity. Qed.

Lemma append_empty (t : string) : EmptyString +:+ t = t.
Proof. reflexivity. Qed.

Lemma id_run_split (s : string) :
  exists rest, s = id_run s +:+ rest /\ id_run rest = EmptyString.
Proof.
  induction s as [|c s (rest & Hs & Hrest)]; simpl.
  - by exists EmptyString.
  - destruct (is_id_char c) eqn:Hc.
    + exists rest. rewrite append_cons, <- Hs. done.
    + exists (String c s). rewrite append_empty. simpl. by rewrite Hc.
Qed.

Lemma strip_sound (literal s rest : string) :
  strip literal s = Some rest -> s = literal +:+ rest.
Proof.
  revert s. induction literal as [|a literal IH]; intros s; simpl.
  - by intros [= ->].
  - destruct s as [|b s]; [done|].
    destruct (Ascii.eqb_spec a b) as [->|]; [|done].
    intros Hs. by rewrite append_cons, <- (IH _ Hs).
Qed.

Lemma strip_complete (literal rest : string) :
  strip literal (literal +:+ rest) = Some rest.
Proof.
  induction literal as [|a literal IH]; [done|].
  rewrite append_cons. simpl. by rewrite Ascii.eqb_refl.
Qed.

Lemma match_here_sound (literal s capture : string) :
  match_here literal s = Some capture ->
  capture <> EmptyString /\ all_id_chars capture = true
  /\ exists rest, s = literal +:+ capture +:+ rest /\ id_run rest = EmptyString.
Proof.
  unfold match_here. destruct (strip literal s) as [tail|] eqn:Hs; [|done].
  destruct (String.eqb_spec (id_run tail) EmptyString) as [|Hne]; [done|].
  intros [= <-]. split; [done|]. split; [apply id_run_all_id_chars|].
  destruct (id_run_split tail) as (rest & Ht & Hrest). exists rest.
  split; [|done]. rewrite (strip_sound _ _ _ Hs). by rewrite <- Ht.
Qed.

Lemma match_any_sound (literals : list string) (s capture : string) :
  match_any literals s = Some capture ->
  exists literal, literal ∈ literals /\ match_here literal s = Some capture.
Proof.
  induction literals as [|literal others IH]; simpl; [done|].
  destruct (match_here literal s) as [c|] eqn:Hm.
  - intros [= <-]. exists literal. split; [constructor | done].
  - intros Hc. destruct (IH Hc) as (l & Hl & Hm'). exists l. split; [by constructor | done].
Qed.

Lemma match_any_none (literals : list string) (s : string) :
  match_any literals s = None ->
  forall literal, literal ∈ literals -> match_here literal s = None.
Proof.
  induction literals as [|literal others IH]; simpl; intros Hnone l Hl.
  - by inversion Hl.
  - destruct (match_here literal s) as [c|] eqn:Hm; [done|].
    apply elem_of_cons in Hl as [->|Hl]; [done | by apply IH].
Qed.

Lemma search_sound (literals : list string) (url : string) :
  forall capture,
    search literals url = Some capture ->
    capture <> EmptyString /\ all_id_chars capture = true
    /\ exists before literal rest,
         literal ∈ literals
         /\ url = before +:+ literal +:+ capture +:+ rest
         /\ id_run rest = EmptyString.
Proof.
  induction url as [|c url IH]; intros capture; simpl.
  - destruct (match_any literals EmptyString) as [c0|] eqn:Hm; [|done].
    intros [= <-]. destruct (match_any_sound _ _ _ Hm) as (l & Hl & Hh).
    destruct (match_here_sound _ _ _ Hh) as (Hne & Hid & rest & Hs & Hrest).
    split; [done|]. split; [done|]. by exists EmptyString, l, rest.
  - destruct (match_any literals (String c url)) as [c0|] eqn:Hm.
    + intros [= <-]. destruct (match_any_sound _ _ _ Hm) as (l & Hl & Hh).
      destruct (match_here_sound _ _ _ Hh) as (Hne & Hid & rest & Hs & Hrest).
      split; [done|]. split; [done|]. by exists EmptyString, l, rest.
    + intros Hs. destruct (IH _ Hs) as (Hne & Hid & before & l & rest & Hl & Hu & Hr).
      split; [done|]. split; [done|].
      exists (String c before), l, rest. split; [done|]. split; [|done].
      rewrite append_cons. congruence.
Qed.

Lemma search_none (literals : list string) (before : string) :
  forall url,
    search literals url = None ->
    forall literal tail,
      literal ∈ literals -> url = before +:+ literal +:+ tail ->
      id_run tail = EmptyString.
Proof.
  induction before as [|a before IH]; intros url Hnone literal tail Hl Hu.
  - rewrite append_empty in Hu. subst url.
    assert (Hany : match_any literals (literal +:+ tail) = None).
    { destruct (literal +:+ tail); simpl in Hnone;
        by destruct (match_any literals _). }
    pose proof (match_any_none _ _ Hany literal Hl) as Hh.
    unfold match_here in Hh. rewrite strip_complete in Hh.
    by destruct (String.eqb_spec (id_run tail) EmptyString).
  - rewrite append_cons in Hu. subst url. simpl in Hnone.
    destruct (match_any literals _); [done|]. by eapply IH.
Qed.

Lemma search_nonempty (literals : list string) (url capture : string) :
  search literals url = Some capture -> capture <> EmptyString.
Proof. intros Hs. by apply search_sound in Hs as [? _]. Qed.

(** X16: what a URL pattern captures.  A capture returned by [search] is a
    non-empty run of characters of [[a-zA-Z0-9_-]] that follows one of the
    pattern's literals in the URL and cannot be extended; and [search] finds
    nothing only when no occurrence of a literal in the URL is followed by
    such a character. *)
Theorem search_captures (literals : list string) (url : string) :
  (forall capture,
      search literals url = Some capture ->
      capture <> EmptyString /\ all_id_chars capture = true
      /\ exists before literal rest,
           literal ∈ literals
           /\ url = before +:+ literal +:+ capture +:+ rest
           /\ id_run rest = EmptyString)
  /\ (search literals url = None ->
      forall before literal tail,
        literal ∈ literals -> url = before +:+ literal +:+ tail ->
        id_run tail = EmptyString).
Proof.
  split; [apply search_sound|].
  intros Hnone before literal tail. by apply (search_none literals before url).
Qed.

Lemma search_captures_witness :
  "UC_x5XG1OV2P6uZZ5FSM9Ttw" <> EmptyString
  /\ all_id_chars "UC_x5XG1OV2P6uZZ5FSM9Ttw" = true
  /\ exists before literal rest,
       literal ∈ PATTERN_channelId
       /\ "https://www.youtube.com/channel/UC_x5XG1OV2P6uZZ5FSM9Ttw?view=1"
          = before +:+ literal +:+ "UC_x5XG1OV2P6uZZ5FSM9Ttw" +:+ rest
       /\ id_run rest = EmptyString.
Proof.
  apply (proj1 (search_captures PATTERN_channelId
                  "https://www.youtube.com/channel/UC_x5XG1OV2P6uZZ5FSM9Ttw?view=1")).
  reflexivity.
Defined.

(** Follow the resolver through one more pattern, request or test. *)
Ltac resolve_step url :=
  match goal with
  | |- context [search ?p url] =>
      let E := fresh "Hsearch" in destruct (search p url) as [?|] eqn:E
  | |- context [channels_list_id ?a ?w] =>
      destruct (channels_list_id a w) as [[?|?] ?]
  | |- context [channels_list_forHandle ?a ?w] =>
      destruct (channels_list_forHandle a w) as [[?|?] ?]
  | |- context [videos_list_snippet_channelId ?a ?w] =>
      destruct (videos_list_snippet_channelId a w) as [[?|?] ?]
  | |- context [search_list_snippet_channelId ?a ?w] =>
      destruct (search_list_snippet_channelId a w) as [[?|?] ?]
  | |- context [truthy ?v] => is_var v; destruct v as [?|]; unfold truthy
  | |- context [match ?v with Some _ => _ | None => _ end] => is_var v; destruct v as [?|]
  | |- context [String.eqb ?t EmptyString] =>
      destruct (String.eqb_spec t EmptyString) as [->|?]
  end; cbn -[search truthy].

(** X17: the contract of channel resolution.  For every URL string and every
    behaviour of the catalog, [getChannelIdFromUrl] returns without throwing,
    after at most four catalog requests; an identifier it returns is never
    the empty string; and when no pattern matches the URL it returns absent
    without any request. *)
Theorem resolver_contract {World : Type} `{Catalog World}
    (url : string) (s : ResolverState World) :
  (exists found s',
      getChannelIdFromUrl url s = (Returned found, s')
      /\ (forall channelId, found = Some channelId -> channelId <> EmptyString)
      /\ exists new, lookups s' = lookups s ++ new /\ (length new <= 4)%nat)
  /\ (search PATTERN_channelId url = None -> search PATTERN_handle url = None ->
      search PATTERN_video url = None -> search PATTERN_customUrl url = None ->
      getChannelIdFromUrl url s = (Returned None, s)).
Proof.
  split.
  - unfold getChannelIdFromUrl, or_continue, request, bind, try_catch, ret.
    cbn -[search truthy].
    repeat resolve_step url;
      eexists _, _; (split; [reflexivity|]);
      (split;
       [ intros channelId Hfound; simplify_eq;
         first [ by eapply search_nonempty | done ]
       | cbn [lookups]; rewrite <- ?app_assoc;
         first [ exists []; rewrite app_nil_r; split; [reflexivity | simpl; lia]
               | eexists; split; [reflexivity | simpl; lia] ] ]).
  - intros H1 H2 H3 H4.
    unfold getChannelIdFromUrl, or_continue, bind, ret. by rewrite H1, H2, H3, H4.
Qed.

End YoutubeUrlLaws.

(** * Further properties of the route *)

Module RouteLaws.
Import RateLimiter Route RouteScenarios RouteClaims.

Lemma append_nonempty (a b : string) : a <> EmptyString -> a +:+ b <> EmptyString.
Proof. destruct a; [done|]. intros _. discriminate. Qed.

Lemma or_else_some_nonempty (m b : string) : b <> EmptyString -> or_else (Some m) b <> EmptyString.
Proof.
  intros Hb. unfold or_else, truthy.
  destruct (String.eqb_spec m EmptyString); simpl; done.
Qed.

(** X18: the shape of a completed run.  When a run emits [complete], its
    events are exactly status, videos, status, topics, status, then the news
    event if the news list is non-empty, then the reddit event if the post
    list is non-empty, then status, ideas, complete; all six services were
    called once, in stage order, the three unforked ones returned, and idea
    generation received the lists that were emitted. *)
Theorem completed_run_shape {W : Type} `{Services W}
    (env : ProcessEnv) (request : Request) (w : W)
    (limits0 : gmap string RateLimitEntry) :
  EvComplete ∈ emitted (run env request w limits0) ->
  exists url resolved channelId fetched analysis newsResult redditResult news posts ideas,
    history (run env request w limits0)
      = [ CalledGetChannelIdFromUrl url resolved;
          CalledFetchChannelVideos channelId (Returned fetched);
          CalledAnalyzeTopics (result_videos fetched) (Returned analysis);
          CalledFetchRelevantNews (topics analysis) newsResult;
          CalledSearchRedditPosts (topics analysis) redditResult;
          CalledGenerateVideoIdeas (result_videos fetched) (topics analysis)
            news posts (Returned ideas) ]
    /\ news = fulfilled_or_empty newsResult
    /\ posts = fulfilled_or_empty redditResult
    /\ emitted (run env request w limits0)
       = [ EvStatus "Fetching channel videos...";
           EvVideos (result_videos fetched) (result_channelName fetched);
           EvStatus "Analyzing topics...";
           EvTopics analysis;
           EvStatus "Fetching news and Reddit discussions..." ]
         ++ optional_event EvNews news
         ++ optional_event EvReddit posts
         ++ [ EvStatus "Generating video ideas...";
              EvIdeas ideas;
              EvComplete ].
Proof.
  walk;
    try (exfalso; match goal with Hlen : (0 < 0)%nat |- _ => by apply Nat.lt_irrefl in Hlen end);
    intros Hcomplete; mem_cases Hcomplete;
    repeat match goal with
           | Hlen : ¬ (0 < length ?l)%nat |- _ =>
               assert (l = []) by (destruct l; [done | exfalso; apply Hlen; simpl; lia]);
               clear Hlen; try subst l
           | Hlen : (0 < length ?l)%nat |- _ =>
               destruct l; [by apply Nat.lt_irrefl in Hlen | clear Hlen]
           end;
    do 10 eexists; (split; [reflexivity|]); (split; [reflexivity|]);
    (split; [reflexivity|]); reflexivity.
Qed.

Lemma completed_run_shape_witness :
  exists url resolved channelId fetched analysis newsResult redditResult news posts ideas,
    history (run configured request news_down ∅)
      = [ CalledGetChannelIdFromUrl url resolved;
          CalledFetchChannelVideos channelId (Returned fetched);
          CalledAnalyzeTopics (result_videos fetched) (Returned analysis);
          CalledFetchRelevantNews (topics analysis) newsResult;
          CalledSearchRedditPosts (topics analysis) redditResult;
          CalledGenerateVideoIdeas (result_videos fetched) (topics analysis)
            news posts (Returned ideas) ]
    /\ news = fulfilled_or_empty newsResult
    /\ posts = fulfilled_or_empty redditResult
    /\ emitted (run configured request news_down ∅)
       = [ EvStatus "Fetching channel videos...";
           EvVideos (result_videos fetched) (result_channelName fetched);
           EvStatus "Analyzing topics...";
           EvTopics analysis;
           EvStatus "Fetching news and Reddit discussions..." ]
         ++ optional_event EvNews news
         ++ optional_event EvReddit posts
         ++ [ EvStatus "Generating video ideas...";
              EvIdeas ideas;
              EvComplete ].
Proof.
  apply (completed_run_shape configured request news_down ∅).
  vm_compute. mem_solve.
Defined.

(** X19: a caller over the limit is turned away at the door.  When the
    caller's window has not passed and has counted [maxRequests] (10), the run
    consists of one [error] event that carries the window's reset instant;
    the request body is not read, no service is called, and the limiter's
    windows are left as they were. *)
Theorem limited_caller_is_turned_away {W : Type} `{Services W}
    (env : ProcessEnv) (request : Request) (w : W)
    (limits0 : gmap string RateLimitEntry) (e : RateLimitEntry) :
  limits0 !! getClientIdentifier request = Some e ->
  (Date_now w).1 <= resetAt e ->
  count e >= PER_IP_maxRequests ->
  run env request w limits0 =
    {| services := (Date_now w).2;
       limits := limits0;
       emitted := [ EvError ("Rate limit exceeded. Please try again after "
                               +:+ toLocaleTimeString (resetAt e))
                            (Some (resetAt e)) ];
       closes := 1;
       history := [] |}.
Proof.
  intros Hl Hnow Hc.
  unfold run, start, POST, try_catch, bind, checkRateLimit, send, close, modify, ret.
  cbn -[check truthy or_else String.append getClientIdentifier
        PER_IP_maxRequests PER_IP_windowSeconds].
  destruct (Date_now w) as [now w1]. simpl in Hnow.
  rewrite (RateLimiterFacts.check_within_denied _ _ _ _ _ e Hl Hnow Hc).
  reflexivity.
Qed.

Lemma limited_caller_is_turned_away_witness :
  run configured request news_down
    {[ "203.0.113.7" := {| count := 10; resetAt := 1700000030000 |} ]}
  = {| services := news_down;
       limits := {[ "203.0.113.7" := {| count := 10; resetAt := 1700000030000 |} ]};
       emitted := [ EvError ("Rate limit exceeded. Please try again after "
                               +:+ "10:13:50 PM")
                            (Some 1700000030000) ];
       closes := 1;
       history := [] |}.
Proof.
  refine (limited_caller_is_turned_away configured request news_down
            {[ "203.0.113.7" := {| count := 10; resetAt := 1700000030000 |} ]}
            {| count := 10; resetAt := 1700000030000 |} _ _ _).
  - reflexivity.
  - simpl. lia.
  - simpl. unfold PER_IP_maxRequests. lia.
Defined.

Lemma rejected_run {W : Type} `{Services W}
    (env : ProcessEnv) (request : Request) (w : W)
    (limits0 : gmap string RateLimitEntry) :
  rejected_before_services env request ->
  history (run env request w limits0) = []
  /\ (exists message resetAt,
        emitted (run env request w limits0) = [EvError message resetAt])
  /\ limits (run env request w limits0)
     = (check (Date_now w).1 (getClientIdentifier request)
          PER_IP_maxRequests PER_IP_windowSeconds limits0).2.
Proof.
  unfold rejected_before_services, run, start, POST, try_catch, bind, settled, await,
    send, close, when, checkRateLimit, request_json, modify, ret.
  cbn -[check truthy or_else String.append getClientIdentifier
        PER_IP_maxRequests PER_IP_windowSeconds].
  destruct (Date_now w) as [now w1]. cbn [fst].
  destruct (check now (getClientIdentifier request) PER_IP_maxRequests
              PER_IP_windowSeconds limits0) as [[[] rem rst] l1];
    cbn -[truthy or_else String.append].
  - destruct (json_url request) as [url|m]; cbn -[truthy or_else String.append].
    + intros Hrej. destruct (truthy url); cbn -[truthy or_else String.append].
      * destruct (truthy (YOUTUBE_API_KEY env));
          destruct (truthy (OPENAI_API_KEY env));
          cbn -[truthy or_else String.append];
          try (split; [done|]; split; [by eexists _, _ | done]).
        destruct Hrej as [|[|]]; done.
      * split; [done|]. split; [by eexists _, _ | done].
    + intros _. split; [done|]. split; [by eexists _, _ | done].
  - intros _. split; [done|]. split; [by eexists _, _ | done].
Qed.

(** X20: requests rejected before any service.  When the body does not
    parse, carries no usable [url], or the required API keys are not both
    configured, the run calls no service and emits a single [error] event;
    the caller's rate window has nevertheless been consulted and charged
    exactly as one [check] does. *)
Theorem rejected_requests_reach_no_service {W : Type} `{Services W}
    (env : ProcessEnv) (request : Request) (w : W)
    (limits0 : gmap string RateLimitEntry) :
  rejected_before_services env request ->
  history (run env request w limits0) = []
  /\ (exists message resetAt,
        emitted (run env request w limits0) = [EvError message resetAt])
  /\ limits (run env request w limits0)
     = (check (Date_now w).1 (getClientIdentifier request)
          PER_IP_maxRequests PER_IP_windowSeconds limits0).2.
Proof. apply rejected_run. Qed.

Lemma rejected_requests_reach_no_service_witness :
  history
    (run configured
       {| x_forwarded_for := None; x_real_ip := Some "198.51.100.4";
          json_url := Thrown "Unexpected end of JSON input" |}
       news_down ∅) = [].
Proof.
  apply (rejected_requests_reach_no_service configured
           {| x_forwarded_for := None; x_real_ip := Some "198.51.100.4";
              json_url := Thrown "Unexpected end of JSON input" |}
           news_down ∅).
  exact I.
Defined.

(** X21: an [error] event always says something.  Whatever the services do,
    and even when what they throw has an empty message, the message of every
    [error] event of a run is non-empty. *)
Theorem error_messages_are_never_empty {W : Type} `{Services W}
    (env : ProcessEnv) (request : Request) (w : W)
    (limits0 : gmap string RateLimitEntry) :
  forall message resetAt,
    EvError message resetAt ∈ emitted (run env request w limits0) ->
    message <> EmptyString.
Proof.
  walk; intros msg rst Hin; mem_cases Hin; simplify_eq;
    first [ done
          | by apply append_nonempty
          | by apply or_else_some_nonempty ].
Qed.

Lemma check_leaves_entry now id maxR w (limits : gmap string RateLimitEntry) :
  exists e, (check now id maxR w limits).2 !! id = Some e.
Proof.
  unfold check. destruct (limits !! id) as [e|] eqn:El; simpl.
  - repeat case_bool_decide; simpl; rewrite ?lookup_insert_eq; by eexists.
  - rewrite lookup_insert_eq. by eexists.
Qed.

(** X22: the caller's identity.  The identifier under which a request is
    rate limited is never empty; it is the first comma-separated element of
    [x-forwarded-for] when that is non-empty, else [x-real-ip] when that is
    non-empty, and else the fixed identifier ["unknown"], which all requests
    without usable headers therefore share. *)
Theorem caller_identity (request : Request) :
  getClientIdentifier request <> EmptyString
  /\ (forall forwarded,
        x_forwarded_for request = Some forwarded ->
        before_comma forwarded <> EmptyString ->
        getClientIdentifier request = before_comma forwarded)
  /\ (truthy (before_comma <$> x_forwarded_for request) = false ->
      forall ip, x_real_ip request = Some ip -> ip <> EmptyString ->
                 getClientIdentifier request = ip)
  /\ (truthy (before_comma <$> x_forwarded_for request) = false ->
      truthy (x_real_ip request) = false ->
      getClientIdentifier request = "unknown").
Proof.
  unfold getClientIdentifier. split; [|split; [|split]].
  - apply AdapterLaws.or_else_nonempty. by apply AdapterLaws.or_else_nonempty.
  - intros forwarded -> Hne. simpl. unfold or_else at 1, truthy.
    by destruct (String.eqb_spec (before_comma forwarded) EmptyString).
  - intros Hf ip -> Hne. unfold or_else at 1. rewrite Hf.
    unfold or_else, truthy. by destruct (String.eqb_spec ip EmptyString).
  - intros Hf Hr. unfold or_else at 1. rewrite Hf. unfold or_else. by rewrite Hr.
Qed.

(** X23: the two rate domains share one key space.  The caller identifier is
    taken verbatim from the header, so a request whose [x-forwarded-for] is
    ["channel:" + id] is counted in the very window that limits channel
    [id]: even when the request is rejected before any service is called,
    that window exists afterwards and is the one a [check] for the channel
    key leaves. *)
Theorem caller_can_charge_a_channel_window {W : Type} `{Services W}
    (env : ProcessEnv) (request : Request) (w : W)
    (limits0 : gmap string RateLimitEntry) (channelId : string) :
  x_forwarded_for request = Some ("channel:" +:+ channelId) ->
  before_comma channelId = channelId ->
  rejected_before_services env request ->
  getClientIdentifier request = "channel:" +:+ channelId
  /\ limits (run env request w limits0)
     = (check (Date_now w).1 ("channel:" +:+ channelId)
          PER_IP_maxRequests PER_IP_windowSeconds limits0).2
  /\ exists e, limits (run env request w limits0) !! ("channel:" +:+ channelId) = Some e.
Proof.
  intros Hf Hcomma Hrej.
  assert (Hid : getClientIdentifier request = "channel:" +:+ channelId).
  { unfold getClientIdentifier. rewrite Hf.
    change (before_comma <$> Some ("channel:" +:+ channelId))
      with (Some ("channel:" +:+ before_comma channelId)).
    by rewrite Hcomma. }
  destruct (rejected_run env request w limits0 Hrej) as (_ & _ & Hlimits).
  rewrite Hid in Hlimits. split; [done|]. split; [done|].
  rewrite Hlimits. apply check_leaves_entry.
Qed.

Lemma caller_can_charge_a_channel_window_witness :
  exists e,
    limits
      (run configured
         {| x_forwarded_for := Some ("channel:" +:+ "UC_x5XG1OV2P6uZZ5FSM9Ttw");
            x_real_ip := None; json_url := Returned None |}
         news_down ∅)
      !! ("channel:" +:+ "UC_x5XG1OV2P6uZZ5FSM9Ttw") = Some e.
Proof.
  apply (caller_can_charge_a_channel_window configured
           {| x_forwarded_for := Some ("channel:" +:+ "UC_x5XG1OV2P6uZZ5FSM9Ttw");
              x_real_ip := None; json_url := Returned None |}
           news_down ∅ "UC_x5XG1OV2P6uZZ5FSM9Ttw").
  - reflexivity.
  - reflexivity.
  - left. reflexivity.
Defined.

Lemma error_messages_are_never_empty_witness :
  "429 Too Many Requests" <> EmptyString.
Proof.
  apply (error_messages_are_never_empty configured request news_and_ideas_down ∅
           "429 Too Many Requests" None).
  vm_compute. mem_solve.
Defined.

End RouteLaws.

(** * The page and the route together *)

Module ClientLaws.
Import RateLimiter Route RouteScenarios RouteClaims.

(** X24: the page always settles.  After the events of any run, received
    whole and in order, the page is no longer loading and shows no status
    line; it shows an error exactly when the run did not complete, and the
    error shown is never empty. *)
Theorem page_always_settles {W : Type} `{Services W}
    (env : ProcessEnv) (request : Request) (w : W)
    (limits0 : gmap string RateLimitEntry) :
  Client.loading (Client.receive (emitted (run env request w limits0))) = false
  /\ Client.status (Client.receive (emitted (run env request w limits0))) = EmptyString
  /\ (Client.error (Client.receive (emitted (run env request w limits0))) = None
      <-> EvComplete ∈ emitted (run env request w limits0))
  /\ (forall message,
        Client.error (Client.receive (emitted (run env request w limits0)))
          = Some message ->
        message <> EmptyString).
Proof.
  walk; unfold Client.receive; cbn -[or_else String.append];
    (split; [reflexivity|]); (split; [reflexivity|]);
    (split;
     [ split; [ intros Herr; first [discriminate Herr | mem_solve]
              | intros Hin; first [reflexivity | mem_cases Hin] ]
     | intros ? Herr; simplify_eq;
       first [ done
             | by apply RouteLaws.append_nonempty
             | by apply RouteLaws.or_else_some_nonempty ] ]).
Qed.

(** X25: what the page shows after a completed run whose events it received
    whole and in order.  When the run emits [complete] and every event of the
    run reaches the page as a whole [data:] line, in the order sent, the page
    holds the channel name and videos of the catalog
    stage, the analysis of the topic stage and the ideas returned by idea
    generation; it holds the news list, and the post list, only when that
    list is non-empty, and these are the lists idea generation received. *)
Theorem page_shows_completed_run {W : Type} `{Services W}
    (env : ProcessEnv) (request : Request) (w : W)
    (limits0 : gmap string RateLimitEntry) :
  EvComplete ∈ emitted (run env request w limits0) ->
  exists channelId fetched analysis topicList news posts ideas,
    CalledFetchChannelVideos channelId (Returned fetched)
      ∈ history (run env request w limits0)
    /\ CalledGenerateVideoIdeas (result_videos fetched) topicList news posts
         (Returned ideas) ∈ history (run env request w limits0)
    /\ topicList = topics analysis
    /\ Client.result (Client.receive (emitted (run env request w limits0)))
       = {| Client.channelName := Some (result_channelName fetched);
            Client.videos := Some (result_videos fetched);
            Client.topics := Some analysis;
            Client.news := Client.shown news;
            Client.redditPosts := Client.shown posts;
            Client.videoIdeas := Some ideas |}.
Proof.
  walk;
    try (exfalso; match goal with Hlen : (0 < 0)%nat |- _ => by apply Nat.lt_irrefl in Hlen end);
    intros Hcomplete; mem_cases Hcomplete;
    repeat match goal with
           | Hlen : ¬ (0 < length ?l)%nat |- _ =>
               assert (l = []) by (destruct l; [done | exfalso; apply Hlen; simpl; lia]);
               clear Hlen; try subst l
           | Hlen : (0 < length ?l)%nat |- _ =>
               destruct l; [by apply Nat.lt_irrefl in Hlen | clear Hlen]
           end;
    do 7 eexists; (split; [mem_solve|]); (split; [mem_solve|]);
    (split; [reflexivity|]); reflexivity.
Qed.

Lemma page_shows_completed_run_witness :
  exists channelId fetched analysis topicList news posts ideas,
    CalledFetchChannelVideos channelId (Returned fetched)
      ∈ history (run configured request news_down ∅)
    /\ CalledGenerateVideoIdeas (result_videos fetched) topicList news posts
         (Returned ideas) ∈ history (run configured request news_down ∅)
    /\ topicList = topics analysis
    /\ Client.result (Client.receive (emitted (run configured request news_down ∅)))
       = {| Client.channelName := Some (result_channelName fetched);
            Client.videos := Some (result_videos fetched);
            Client.topics := Some analysis;
            Client.news := Client.shown news;
            Client.redditPosts := Client.shown posts;
            Client.videoIdeas := Some ideas |}.
Proof.
  apply (page_shows_completed_run configured request news_down ∅).
  vm_compute. mem_solve.
Defined.

End ClientLaws.

(** * Worked examples *)

Module Examples.
Import RateLimiter Route RouteScenarios.

Example client_identifier_is_first_forwarded_address :
  getClientIdentifier request = "203.0.113.7".
Proof. reflexivity. Qed.

Example client_identifier_defaults_to_unknown :
  getClientIdentifier
    {| x_forwarded_for := Some EmptyString; x_real_ip := None;
       json_url := Returned None |} = "unknown".
Proof. reflexivity. Qed.

Example permalink_without_leading_slash :
  child_url {| child_title := Some "t"; child_permalink := Some "r/rust/comments/a1";
               child_subreddit := Some "rust"; child_id := Some "a1";
               child_score := None; child_created_utc := None; child_created := None |}
  = "https://reddit.com/r/rust/comments/a1".
Proof. reflexivity. Qed.

Example missing_permalink_uses_subreddit_and_id :
  child_url {| child_title := Some "t"; child_permalink := None;
               child_subreddit := None; child_id := Some "a1";
               child_score := None; child_created_utc := None; child_created := None |}
  = "https://reddit.com/r/undefined/comments/a1".
Proof. reflexivity. Qed.

Example untitled_children_are_dropped :
  children_to_posts
    [ {| child_title := None; child_permalink := Some "/r/rust/comments/a1";
         child_subreddit := Some "rust"; child_id := Some "a1";
         child_score := Some 5; child_created_utc := Some 1699999000;
         child_created := None |};
      {| child_title := Some "Async traits"; child_permalink := Some "/r/rust/comments/a1";
         child_subreddit := None; child_id := Some "a1";
         child_score := None; child_created_utc := None; child_created := None |} ]
  = [ {| post_title := "Async traits"; post_url := "https://reddit.com/r/rust/comments/a1";
         post_subreddit := "unknown"; post_score := 0; post_created := CreatedNow |} ].
Proof. reflexivity. Qed.

(** A second post under an already pooled URL is dropped even though it
    scores higher; the rest is ordered by score. *)
Example duplicate_url_keeps_first_seen :
  map post_title
    (sortedPosts
       (three_posts ++
        [ post "Tokio again" "https://reddit.com/r/rust/comments/b2" 999;
          post "Axum 0.7" "https://reddit.com/r/rust/comments/d4" 300 ]))
  = ["Async traits"; "Axum 0.7"; "Tokio 1.34"; "Why wasm"].
Proof. reflexivity. Qed.

(** The eleventh request of a caller inside one minute is answered by a
    single [error] event carrying the reset instant. *)
Example rate_limited_run :
  emitted
    (run configured request news_down
       {[ "203.0.113.7" := {| count := 10; resetAt := 1700000030000 |} ]})
  = [ EvError "Rate limit exceeded. Please try again after 10:13:50 PM"
        (Some 1700000030000) ].
Proof. reflexivity. Qed.

Example missing_url_run :
  emitted
    (run configured
       {| x_forwarded_for := None; x_real_ip := Some "198.51.100.4";
          json_url := Returned None |}
       news_down ∅)
  = [ EvError "URL is required" None ].
Proof. reflexivity. Qed.

Example unparsable_body_run :
  emitted
    (run configured
       {| x_forwarded_for := None; x_real_ip := None;
          json_url := Thrown "Unexpected end of JSON input" |}
       news_down ∅)
  = [ EvError "Unexpected end of JSON input" None ].
Proof. reflexivity. Qed.

End Examples.
